(** * Difficulty retargeting of the Ion chain: a shallow embedding of [pow.cpp]

    The development follows the source file [src/pow.cpp]: the hybrid walker
    [GetHybridPrevIndex], the five retarget algorithms, the classifier
    [IsProofOfStakeHeight], the dispatcher [GetNextWorkRequired] and the
    verifier [CheckProofOfWork].

    Conventions.
    - A [const CBlockIndex*] is a list of block summaries: [[]] is [nullptr],
      and [b :: anc] is a pointer to [b] whose [pprev] is [anc].  Chains are
      therefore finite and acyclic by construction.
    - [int], [int64_t] and [uint32_t] values are integers of [Z].  The
      [int64_t] arithmetic is written without wrap-around (signed overflow is
      undefined in C++; timestamps are 32-bit and the spacings small, so the
      sums and products of the source stay far inside [int64_t]).  The
      theorems that state that an execution is defined carry the bounds
      under which no signed value of the source leaves its type: block
      fields in the range of their types ([chain_typed]) and bounded
      spacings.  The one sum that block data alone can take out of range,
      [nHeight + 1] of the dispatcher, is an [int]; it is written with its
      32-bit two's-complement result ([to_int32]).  The unsigned 256-bit
      arithmetic wraps and the wrap is written out ([% 2^256]), as are the
      conversions of [int64_t] operands to [uint32_t] or [uint64_t].
    - Integer division [/] of C++ truncates toward zero: [Z.quot].
    - A function whose execution can dereference a null pointer, divide by
      zero or leave a non-void function without [return] yields an [option]:
      [None] stands for such an execution. *)

From Stdlib Require Import ZArith List Bool Lia.
Import ListNotations.

Local Open Scope Z_scope.

(** ** Data model *)

(** The fields of [CBlockIndex] that [pow.cpp] reads.  [GetBlockTime()] is
    [nTime] widened to [int64_t]. *)
Record CBlockIndex : Type := mkBlock {
  nHeight : Z;
  nTime : Z;
  nBits : Z;
  nVersion : Z
}.

Definition chain : Type := list CBlockIndex.

Definition GetBlockTime (b : CBlockIndex) : Z := nTime b.

(** [pindex->pprev] *)
Definition pprev (pindex : chain) : chain := tl pindex.

(** Network identity returned by [Params().NetworkIDString()]. *)
Inductive Network : Type := MAIN | TESTNET | DEVNET | REGTEST.

Definition Network_eqb (a b : Network) : bool :=
  match a, b with
  | MAIN, MAIN | TESTNET, TESTNET | DEVNET, DEVNET | REGTEST, REGTEST => true
  | _, _ => false
  end.

(** The fields of [Consensus::Params] that [pow.cpp] reads. *)
Record Params : Type := mkParams {
  powLimit : Z;
  posLimit : Z;
  hybridPowLimit : Z;
  nPowTargetSpacing : Z;
  nHybridPowTargetSpacing : Z;
  nHybridPosTargetSpacing : Z;
  nPosTargetSpacing : Z;
  nPosTargetSpacingMidas : Z;
  nPosTargetTimespanMidas : Z;
  POSStartHeight : Z;
  POSPOWStartHeight : Z;
  DGWDifficultyStartHeight : Z;
  MidasStartHeight : Z;
  nMinimumDifficultyBlocks : Z;
  fPowNoRetargeting : bool;
  fPowAllowMinDifficultyBlocks : bool
}.

(** ** Error monad for executions that can be undefined *)

Definition bind {A B : Type} (m : option A) (k : A -> option B) : option B :=
  match m with
  | Some a => k a
  | None => None
  end.

Notation "x <- m ;; k" := (bind m (fun x => k))
  (at level 61, m at next level, right associativity).

(** [a / b] on [int64_t]: undefined for a zero divisor. *)
Definition div64 (a b : Z) : option Z :=
  if b =? 0 then None else Some (Z.quot a b).

(** The [int] that holds the integer [z] on a 32-bit two's-complement
    machine: [z] itself inside the range of [int] and its wrap outside,
    which is what the compiled code computes for a signed sum that
    overflows (the C++ standard leaves that sum undefined). *)
Definition to_int32 (z : Z) : Z := (z + 2 ^ 31) mod 2 ^ 32 - 2 ^ 31.

(** ** 256-bit unsigned arithmetic and the compact codec *)

Module Arith256.

Definition two256 : Z := 2 ^ 256.

(** Conversions of an [int64_t] operand at a call of [arith_uint256]. *)
Definition to_uint32 (z : Z) : Z := z mod 2 ^ 32.
Definition to_uint64 (z : Z) : Z := z mod 2 ^ 64.

(** Modelled from the spec: [arith_uint256] ([arith_uint256.h] is not among
    the sources) is the 256-bit unsigned magnitude of the data model, with
    arithmetic modulo [2^256].  The spec names no operand widths; as in the
    interface that [pow.cpp] is written against, multiplication by a
    built-in integer goes through the [uint32_t] overload. *)
Definition mul32 (a : Z) (b : Z) : Z := (a * to_uint32 b) mod two256.

Definition add (a b : Z) : Z := (a + b) mod two256.

(** Modelled from the spec: division takes a 256-bit divisor, to which a
    built-in integer operand converts through [uint64_t]; a zero divisor
    raises an error, which no caller in [pow.cpp] catches. *)
Definition div (a : Z) (b : Z) : option Z :=
  if to_uint64 b =? 0 then None else Some (a / to_uint64 b).

(** [bits()]: position of the highest set bit, plus one. *)
Definition bits (x : Z) : Z := if x <=? 0 then 0 else Z.log2 x + 1.

(** Modelled from the spec: [decode(packed) -> (magnitude, negative,
    overflow)] of section 4.1.  The exponent is the top byte and the
    mantissa the low 23 bits; an exponent of at most 3 shifts the mantissa
    right, a larger one shifts it left by [8*(exponent-3)] bits into the
    256-bit field.  Negative is the sign bit [0x00800000] on a non-zero
    mantissa; overflow is a non-zero mantissa whose shifted bit length
    exceeds 256. *)
Definition SetCompact (nCompact : Z) : Z * bool * bool :=
  let nSize := Z.shiftr nCompact 24 in
  let nWord := Z.land nCompact 8388607 in
  let nWord' := if nSize <=? 3 then Z.shiftr nWord (8 * (3 - nSize)) else nWord in
  let value :=
    if nSize <=? 3 then nWord'
    else (Z.shiftl nWord (8 * (nSize - 3))) mod two256 in
  let fNegative := negb (nWord' =? 0) && negb (Z.land nCompact 8388608 =? 0) in
  let fOverflow :=
    negb (nWord' =? 0) && (3 <? nSize)
    && (256 <? bits (Z.shiftl nWord (8 * (nSize - 3)))) in
  (value, fNegative, fOverflow).

(** [arith_uint256().SetCompact(n)] used for its value only. *)
Definition decode (nCompact : Z) : Z := fst (fst (SetCompact nCompact)).

(** Modelled from the spec: [encode(magnitude) -> packed] of section 4.1:
    the minimal byte length as exponent, the top three bytes as mantissa,
    and one more byte shifted out when the mantissa would show the sign
    bit. *)
Definition GetCompact (x : Z) : Z :=
  let nSize := Z.quot (bits x + 7) 8 in
  let nCompact :=
    if nSize <=? 3 then Z.shiftl x (8 * (3 - nSize))
    else Z.shiftr x (8 * (nSize - 3)) in
  let '(nCompact, nSize) :=
    if negb (Z.land nCompact 8388608 =? 0)
    then (Z.shiftr nCompact 8, nSize + 1)
    else (nCompact, nSize) in
  Z.lor nCompact (Z.shiftl nSize 24).

(** The exponent that [GetCompact] starts from: the length in bytes. *)
Definition byte_size (x : Z) : Z := Z.quot (bits x + 7) 8.

End Arith256.

Import Arith256.

(** ** The program *)

Section Pow.

(** Ambient data that [pow.cpp] reads from outside [Consensus::Params]:
    the network identity and the genesis timestamp of the global
    [Params()], and the two block-type constants of the header version
    ([BLOCKTYPEBITS_MASK], [BlockTypeBits::BLOCKTYPE_STAKING]), whose
    declarations are not among the sources. *)
Variable NetworkIDString : Network.
Variable GenesisBlock_nTime : Z.
Variable BLOCKTYPEBITS_MASK : Z.
Variable BLOCKTYPE_STAKING : Z.

(** [(b.nVersion & BLOCKTYPEBITS_MASK) == BlockTypeBits::BLOCKTYPE_STAKING] *)
Definition IsStaking (b : CBlockIndex) : bool :=
  Z.land (nVersion b) BLOCKTYPEBITS_MASK =? BLOCKTYPE_STAKING.

(** *** Hybrid walker *)

Fixpoint GetHybridPrevIndex (pindex : chain) (fPos : bool) (nMinHeight : Z)
  : chain :=
  match pindex with
  | [] => []
  | _ :: prev =>
    match prev with
    | [] => []
    | p :: _ =>
      if nHeight p <? nMinHeight then []
      else if Bool.eqb (IsStaking p) fPos then prev
      else GetHybridPrevIndex prev fPos nMinHeight
    end
  end.

(** *** Hybrid PoW: averaged window over the PoW sub-chain *)

(** The [fPowAllowMinDifficultyBlocks] block of [HybridPoWDarkGravityWave]:
    [Some r] when it returns [r], [None] when control goes on. *)
Definition hybrid_min_difficulty (pindexLast : chain) (bLast : CBlockIndex)
    (params : Params) : option Z :=
  let bnPowLimit := hybridPowLimit params in
  if fPowAllowMinDifficultyBlocks params then
    match GetHybridPrevIndex pindexLast false (POSPOWStartHeight params) with
    | [] => Some (GetCompact bnPowLimit)
    | bPrev :: _ =>
      let nPrevBlockTime := GetBlockTime bPrev in
      if GetBlockTime bLast >? nPrevBlockTime + 2 * 60 * 60 then
        Some (GetCompact bnPowLimit)
      else if GetBlockTime bLast >? nPrevBlockTime + nPowTargetSpacing params * 4
      then
        let bnNew := mul32 (decode (nBits bLast)) 10 in
        let bnNew := if bnNew >? bnPowLimit then bnPowLimit else bnNew in
        Some (GetCompact bnNew)
      else None
    end
  else None.

(** The [for] loop of [HybridPoWDarkGravityWave], [todo] iterations from
    counter [nCountBlocks]: [inl r] when the loop body returns [r], [inr]
    with the final [pindex] and average when the loop ends. *)
Fixpoint hybrid_window (todo : nat) (nCountBlocks : Z) (pindex : chain)
    (bnPastTargetAvg : Z) (params : Params) : option (Z + chain * Z) :=
  match todo with
  | O => Some (inr (pindex, bnPastTargetAvg))
  | S todo' =>
    match pindex with
    | [] => None
    | b :: _ =>
      let bnTarget := decode (nBits b) in
      avg <- (if nCountBlocks =? 1 then Some bnTarget
              else Arith256.div
                     (add (mul32 bnPastTargetAvg nCountBlocks) bnTarget)
                     (nCountBlocks + 1)) ;;
      if negb (nCountBlocks =? 24) then
        let pindex' :=
          GetHybridPrevIndex pindex false (POSPOWStartHeight params) in
        match pindex' with
        | [] => Some (inl (GetCompact (hybridPowLimit params)))
        | b' :: _ =>
          if nHeight b' <=? POSPOWStartHeight params
          then Some (inl (GetCompact (hybridPowLimit params)))
          else hybrid_window todo' (nCountBlocks + 1) pindex' avg params
        end
      else hybrid_window todo' (nCountBlocks + 1) pindex avg params
    end
  end.

Definition HybridPoWDarkGravityWave (pindexLastIn : chain) (params : Params)
  : option Z :=
  match pindexLastIn with
  | [] => None
  | bIn :: _ =>
    let bnPowLimit := hybridPowLimit params in
    let nPastBlocks := 24 in
    let pindexLast :=
      if IsStaking bIn
      then GetHybridPrevIndex pindexLastIn false (POSPOWStartHeight params)
      else pindexLastIn in
    match pindexLast with
    | [] => Some (GetCompact bnPowLimit)
    | bLast :: _ =>
      if nHeight bLast <? POSPOWStartHeight params + nPastBlocks
      then Some (GetCompact bnPowLimit)
      else
        match hybrid_min_difficulty pindexLast bLast params with
        | Some r => Some r
        | None =>
          w <- hybrid_window 24 1 pindexLast 0 params ;;
          match w with
          | inl r => Some r
          | inr (pindex, bnPastTargetAvg) =>
            match pindex with
            | [] => None
            | b :: _ =>
              let nActualTimespan := GetBlockTime bLast - GetBlockTime b in
              let nTargetTimespan :=
                nPastBlocks * nHybridPowTargetSpacing params in
              let nActualTimespan :=
                if nActualTimespan <? Z.quot nTargetTimespan 4
                then Z.quot nTargetTimespan 4 else nActualTimespan in
              let nActualTimespan :=
                if nActualTimespan >? nTargetTimespan * 4
                then nTargetTimespan * 4 else nActualTimespan in
              let bnNew := mul32 bnPastTargetAvg nActualTimespan in
              bnNew <- Arith256.div bnNew nTargetTimespan ;;
              let bnNew :=
                if bnNew >? bnPowLimit then bnPowLimit else bnNew in
              Some (GetCompact bnNew)
            end
          end
        end
    end
  end.

(** *** Hybrid PoS: exponential smoothing over the PoS sub-chain *)

Definition HybridPoSPIVXDifficulty (pindexLastIn : chain) (params : Params)
  : option Z :=
  match pindexLastIn with
  | [] => None
  | bIn :: _ =>
    let pindexLast :=
      if IsStaking bIn then pindexLastIn
      else GetHybridPrevIndex pindexLastIn true (POSPOWStartHeight params) in
    match pindexLast with
    | [] => Some (GetCompact (posLimit params))
    | bLast :: _ =>
      if nHeight bLast <=? POSPOWStartHeight params
      then Some (GetCompact (posLimit params))
      else if fPowNoRetargeting params then Some (nBits bLast)
      else
        let bnTargetLimit := posLimit params in
        if nHeight bLast >? POSStartHeight params then
          let nTargetSpacing := nHybridPosTargetSpacing params in
          let nInterval := 40 in
          let nActualSpacing :=
            match GetHybridPrevIndex pindexLast true
                    (POSPOWStartHeight params) with
            | [] => 0
            | bPrev :: _ => GetBlockTime bLast - GetBlockTime bPrev
            end in
          let nActualSpacing :=
            if nActualSpacing <? 0 then 1 else nActualSpacing in
          let bnNew := decode (nBits bLast) in
          let bnNew :=
            mul32 bnNew ((nInterval - 1) * nTargetSpacing
                         + nActualSpacing + nActualSpacing) in
          bnNew <- Arith256.div bnNew ((nInterval + 1) * nTargetSpacing) ;;
          let bnNew :=
            if (bnNew <=? 0) || (bnNew >? bnTargetLimit)
            then bnTargetLimit else bnNew in
          Some (GetCompact bnNew)
        else
          (* control reaches the end of the function: no [return] *)
          None
    end
  end.

(** *** Averaged window of the single-track era *)

(** The exponential branch of [GetNextWorkRequiredPivx].  The source has the
    same statements twice (above [POSStartHeight], and the testnet
    exception), differing only in the limit in force. *)
Definition pivx_exponential (pindexLast : chain) (bLast : CBlockIndex)
    (bnTargetLimit : Z) : option Z :=
  let nTargetSpacing := 60 in
  let nTargetTimespan := 60 * 40 in
  nActualSpacing <-
    (if negb (nHeight bLast =? 0) then
       match pprev pindexLast with
       | [] => None
       | bPrev :: _ => Some (GetBlockTime bLast - GetBlockTime bPrev)
       end
     else Some 0) ;;
  let nActualSpacing := if nActualSpacing <? 0 then 1 else nActualSpacing in
  let bnNew := decode (nBits bLast) in
  let nInterval := Z.quot nTargetTimespan nTargetSpacing in
  let bnNew :=
    mul32 bnNew ((nInterval - 1) * nTargetSpacing
                 + nActualSpacing + nActualSpacing) in
  bnNew <- Arith256.div bnNew ((nInterval + 1) * nTargetSpacing) ;;
  let bnNew :=
    if (bnNew <=? 0) || (bnNew >? bnTargetLimit)
    then bnTargetLimit else bnNew in
  Some (GetCompact bnNew).

(** Local variables of the window loop of [GetNextWorkRequiredPivx]. *)
Record dgw_state : Type := mkDgw {
  CountBlocks : Z;
  PastDifficultyAverage : Z;
  PastDifficultyAveragePrev : Z;
  LastBlockTime : Z;
  nActualTimespan : Z
}.

(** The [for] loop of [GetNextWorkRequiredPivx], from [BlockReading] with
    counter [i]; every iteration steps to [pprev] or leaves the loop. *)
Fixpoint pivx_window (BlockReading : chain) (i : Z) (st : dgw_state)
  : option dgw_state :=
  match BlockReading with
  | [] => Some st
  | b :: prev =>
    if negb (nHeight b >? 0) then Some st
    else if (24 >? 0) && (i >? 24) then Some st
    else
      let count := CountBlocks st + 1 in
      avgs <-
        (if count <=? 24 then
           avg <- (if count =? 1 then Some (decode (nBits b))
                   else Arith256.div
                          (add (mul32 (PastDifficultyAveragePrev st) count)
                               (decode (nBits b)))
                          (count + 1)) ;;
           Some (avg, avg)
         else Some (PastDifficultyAverage st, PastDifficultyAveragePrev st)) ;;
      let span :=
        if LastBlockTime st >? 0
        then nActualTimespan st + (LastBlockTime st - GetBlockTime b)
        else nActualTimespan st in
      let st' := mkDgw count (fst avgs) (snd avgs) (GetBlockTime b) span in
      match prev with
      | [] => Some st'
      | _ :: _ => pivx_window prev (i + 1) st'
      end
  end.

Definition GetNextWorkRequiredPivx (pindexLast : chain) (params : Params)
    (fProofOfStake : bool) : option Z :=
  if fPowNoRetargeting params then
    match pindexLast with
    | [] => None
    | bLast :: _ => Some (nBits bLast)
    end
  else
    match pindexLast with
    | [] => Some (GetCompact (powLimit params))
    | bLast :: _ =>
      if (nHeight bLast =? 0)
         || (nHeight bLast <? DGWDifficultyStartHeight params + 24)
      then Some (GetCompact (powLimit params))
      else
        let bnTargetLimit :=
          if fProofOfStake then posLimit params else powLimit params in
        if nHeight bLast >? POSStartHeight params then
          pivx_exponential pindexLast bLast bnTargetLimit
        else if Network_eqb NetworkIDString TESTNET
                && (nHeight bLast + 3 >? POSStartHeight params) then
          pivx_exponential pindexLast bLast (posLimit params)
        else
          st <- pivx_window pindexLast 1 (mkDgw 0 0 0 0 0) ;;
          let bnNew := PastDifficultyAverage st in
          let _nTargetTimespan := CountBlocks st * nPosTargetSpacing params in
          let span := nActualTimespan st in
          let span :=
            if span <? Z.quot _nTargetTimespan 3
            then Z.quot _nTargetTimespan 3 else span in
          let span :=
            if span >? _nTargetTimespan * 3
            then _nTargetTimespan * 3 else span in
          let bnNew := mul32 bnNew span in
          bnNew <- Arith256.div bnNew _nTargetTimespan ;;
          let bnNew :=
            if bnNew >? bnTargetLimit then bnTargetLimit else bnNew in
          Some (GetCompact bnNew)
    end.

(** *** Midas *)

(** The [for] loop of [avgRecentTimestamps]: [todo] iterations from
    [blockoffset], accumulating the four sums of intervals. *)
Fixpoint avg_loop (todo : nat) (blockoffset : Z) (pindexLast : chain)
    (blocktime : Z) (sums : Z * Z * Z * Z) (params : Params)
  : Z * Z * Z * Z :=
  match todo with
  | O => sums
  | S todo' =>
    let oldblocktime := blocktime in
    let '(pindexLast', blocktime') :=
      match pprev pindexLast with
      | p :: _ => (pprev pindexLast, GetBlockTime p)
      | [] => (pindexLast, blocktime - nPosTargetSpacing params)
      end in
    let d := oldblocktime - blocktime' in
    let '(s5, s7, s9, s17) := sums in
    avg_loop todo' (blockoffset + 1) pindexLast' blocktime'
      (if blockoffset <? 5 then s5 + d else s5,
       if blockoffset <? 7 then s7 + d else s7,
       if blockoffset <? 9 then s9 + d else s9,
       s17 + d) params
  end.

(** Returns [(avgOf5, avgOf7, avgOf9, avgOf17)]. *)
Definition avgRecentTimestamps (pindexLast : chain) (params : Params)
  : Z * Z * Z * Z :=
  let blocktime :=
    match pindexLast with
    | b :: _ => GetBlockTime b
    | [] => 0
    end in
  let '(s5, s7, s9, s17) :=
    avg_loop 17 0 pindexLast blocktime (0, 0, 0, 0) params in
  (Z.quot s5 5, Z.quot s7 7, Z.quot s9 9, Z.quot s17 17).

(** The regulatory goal [nIntervalDesired] of [GetNextWorkRequiredMidas]. *)
Definition midas_interval_desired (bLast : CBlockIndex) (params : Params)
  : option Z :=
  let spacing := nPosTargetSpacingMidas params in
  let timespan := nPosTargetTimespanMidas params in
  let nFastInterval := Z.quot (spacing * 9) 10 in
  let nSlowInterval := Z.quot (spacing * 11) 10 in
  let now := GetBlockTime bLast in
  let BlockHeightTime := GenesisBlock_nTime + nHeight bLast * spacing in
  if (now <? BlockHeightTime + timespan) && (now >? BlockHeightTime) then
    div64 ((timespan - (now - BlockHeightTime)) * spacing
           + (now - BlockHeightTime) * nFastInterval) spacing
  else if (now + timespan >? BlockHeightTime) && (now <? BlockHeightTime) then
    div64 ((timespan - (BlockHeightTime - now)) * spacing
           + (BlockHeightTime - now) * nSlowInterval) timespan
  else if now <? BlockHeightTime then Some nSlowInterval
  else Some nFastInterval.

(** The value of [difficultyfactor] after the emergency and normal
    adjustments and the limit to doubling or halving. *)
Definition midas_factor (avgs : Z * Z * Z * Z) (nIntervalDesired : Z)
  : option Z :=
  let '(avgOf5, avgOf7, avgOf9, avgOf17) := avgs in
  let difficultyfactor := 10000 in
  let toofast := Z.quot (nIntervalDesired * 2) 3 in
  let tooslow := Z.quot (nIntervalDesired * 3) 2 in
  difficultyfactor <-
    (if (avgOf5 <? toofast) && (avgOf9 <? toofast) && (avgOf17 <? toofast)
     then Some (Z.quot (difficultyfactor * 8) 5)
     else if (avgOf5 >? tooslow) && (avgOf7 >? tooslow) && (avgOf9 >? tooslow)
     then Some (Z.quot (difficultyfactor * 5) 8)
     else if (((avgOf5 >? nIntervalDesired) || (avgOf7 >? nIntervalDesired))
              && (avgOf9 >? nIntervalDesired)
              && (avgOf17 >? nIntervalDesired))
             || (((avgOf5 <? nIntervalDesired) || (avgOf7 <? nIntervalDesired))
                 && (avgOf9 <? nIntervalDesired)
                 && (avgOf17 <? nIntervalDesired))
     then div64 (difficultyfactor * (6 * nIntervalDesired))
                (avgOf17 + 5 * nIntervalDesired)
     else Some difficultyfactor) ;;
  let difficultyfactor :=
    if difficultyfactor >? 20000 then 20000 else difficultyfactor in
  let difficultyfactor :=
    if difficultyfactor <? 5000 then 5000 else difficultyfactor in
  Some difficultyfactor.

Definition GetNextWorkRequiredMidas (pindexLast : chain) (params : Params)
    (fProofOfStake : bool) : option Z :=
  let bnTargetLimit :=
    if fProofOfStake then posLimit params else powLimit params in
  let nTargetLimit := GetCompact bnTargetLimit in
  match pindexLast with
  | [] => Some nTargetLimit
  | bLast :: _ =>
    nIntervalDesired <- midas_interval_desired bLast params ;;
    difficultyfactor <-
      midas_factor (avgRecentTimestamps pindexLast params) nIntervalDesired ;;
    let bnOld := decode (nBits bLast) in
    if difficultyfactor =? 10000 then Some (GetCompact bnOld)
    else
      bnNew <- Arith256.div bnOld difficultyfactor ;;
      let bnNew := mul32 bnNew 10000 in
      let bnNew := if bnNew >? bnTargetLimit then bnTargetLimit else bnNew in
      Some (GetCompact bnNew)
  end.

(** *** Classifier *)

Definition IsProofOfStakeHeight (nHeight : Z) (params : Params) : bool :=
  if nHeight >=? POSStartHeight params then true
  else if Network_eqb NetworkIDString MAIN then
    if (nHeight >=? 455) && (nHeight <=? 479) then true
    else if (nHeight >=? 481) && (nHeight <=? 489) then true
    else if (nHeight >=? 492) && (nHeight <=? 492) then true
    else if (nHeight >=? 501) && (nHeight <=? 501) then true
    else if (nHeight >=? 691) && (nHeight <=? 691) then true
    else if (nHeight >=? 702) && (nHeight <=? 703) then true
    else if (nHeight >=? 721) && (nHeight <=? 721) then true
    else if (nHeight >=? 806) && (nHeight <=? 811) then true
    else if (nHeight >=? 876) && (nHeight <=? 876) then true
    else if (nHeight >=? 889) && (nHeight <=? 889) then true
    else if (nHeight >=? 907) && (nHeight <=? 907) then true
    else if (nHeight >=? 913) && (nHeight <=? 914) then true
    else if (nHeight >=? 916) && (nHeight <=? 929) then true
    else if (nHeight >=? 931) && (nHeight <=? 931) then true
    else if (nHeight >=? 933) && (nHeight <=? 942) then true
    else if (nHeight >=? 945) && (nHeight <=? 947) then true
    else if (nHeight >=? 949) && (nHeight <=? 960) then true
    else if (nHeight >=? 962) && (nHeight <=? 962) then true
    else if (nHeight >=? 969) && (nHeight <=? 969) then true
    else if (nHeight >=? 991) && (nHeight <=? 991) then true
    else false
  else false.

(** *** Legacy exponential *)

(** The [while] loops of [GetNextWorkRequiredOrig]: step back while the
    block has a predecessor and its height is of the other type. *)
Fixpoint skip_other_type (pindex : chain) (params : Params)
    (fProofOfStake : bool) : chain :=
  match pindex with
  | [] => []
  | b :: prev =>
    match prev with
    | [] => pindex
    | _ :: _ =>
      if negb (Bool.eqb (IsProofOfStakeHeight (nHeight b) params) fProofOfStake)
      then skip_other_type prev params fProofOfStake
      else pindex
    end
  end.

(** The limit in force in [GetNextWorkRequiredOrig]; the literal is
    [0x00000fff...f]. *)
Definition orig_limit (params : Params) (fProofOfStake : bool) : Z :=
  if fProofOfStake && Network_eqb NetworkIDString MAIN
  then 2 ^ 236 - 1 else powLimit params.

Definition GetNextWorkRequiredOrig (pindexLast : chain) (params : Params)
    (fProofOfStake : bool) : option Z :=
  if fPowNoRetargeting params then
    match pindexLast with
    | [] => None
    | bLast :: _ => Some (nBits bLast)
    end
  else
    let bnTargetLimit := orig_limit params fProofOfStake in
    match skip_other_type pindexLast params fProofOfStake with
    | [] => Some (GetCompact bnTargetLimit)
    | bPrev :: prev =>
      match skip_other_type prev params fProofOfStake with
      | [] => Some (GetCompact bnTargetLimit)
      | bPrevPrev :: _ =>
        let nActualSpacing := GetBlockTime bPrev - GetBlockTime bPrevPrev in
        let nActualSpacing :=
          if nActualSpacing <? 0 then 64
          else if fProofOfStake && (nActualSpacing >? 64 * 10) then 64 * 10
          else nActualSpacing in
        let bnNew := decode (nBits bPrev) in
        let nInterval := if fProofOfStake then 10 else 10 in
        let bnNew :=
          mul32 bnNew ((nInterval - 1) * 64 + nActualSpacing + nActualSpacing) in
        bnNew <- Arith256.div bnNew ((nInterval + 1) * 64) ;;
        let bnNew :=
          if (bnNew <=? 0) || (bnNew >? bnTargetLimit)
          then bnTargetLimit else bnNew in
        Some (GetCompact bnNew)
      end
    end.

(** *** Dispatcher *)

(** [const int nHeight = pindexLast->nHeight + 1] is a sum of [int]s;
    [nHeight'] below is its value. *)
Definition GetNextWorkRequired (pindexLast : chain) (params : Params)
    (fHybridPow : bool) : option Z :=
  match pindexLast with
  | [] => None
  | bLast :: _ =>
    let nHeight' := to_int32 (nHeight bLast + 1) in
    let fProofOfStake := IsProofOfStakeHeight nHeight' params in
    if nHeight bLast <? nMinimumDifficultyBlocks params then
      Some (GetCompact (powLimit params))
    else if nHeight' >=? POSPOWStartHeight params then
      if fHybridPow then HybridPoWDarkGravityWave pindexLast params
      else HybridPoSPIVXDifficulty pindexLast params
    else if nHeight bLast >=? DGWDifficultyStartHeight params then
      GetNextWorkRequiredPivx pindexLast params fProofOfStake
    else if nHeight bLast >=? MidasStartHeight params then
      GetNextWorkRequiredMidas pindexLast params fProofOfStake
    else
      GetNextWorkRequiredOrig pindexLast params fProofOfStake
  end.

(** *** Proof verifier *)

(** [hash] is the value of [UintToArith256(hash)]. *)
Definition CheckProofOfWork (hash : Z) (nBits : Z) (params : Params) : bool :=
  let '(bnTarget, fNegative, fOverflow) := SetCompact nBits in
  if fNegative || (bnTarget =? 0) || fOverflow || (bnTarget >? powLimit params)
  then false
  else if hash >? bnTarget then false
  else true.

(** ** Specification-level definitions *)

(** Heights strictly decrease along the predecessor links (data model:
    the height grows by one from each block to its successor). *)
Fixpoint heights_descend (c : chain) : Prop :=
  match c with
  | [] => True
  | b :: prev =>
    match prev with
    | [] => True
    | p :: _ => nHeight p < nHeight b /\ heights_descend prev
    end
  end.

(** The nearest block of [anc], itself included, whose type flag is
    [want_stake] and whose height is at least [min_height]. *)
Fixpoint nearest_matching (anc : chain) (want_stake : bool) (min_height : Z)
  : chain :=
  match anc with
  | [] => []
  | p :: rest =>
    if Bool.eqb (IsStaking p) want_stake && (min_height <=? nHeight p)
    then anc
    else nearest_matching rest want_stake min_height
  end.

(** The historical table of the classifier: inclusive height ranges of the
    main network that are proof-of-stake below the threshold. *)
Definition historical_table : list (Z * Z) :=
  [ (455, 479); (481, 489); (492, 492); (501, 501); (691, 691); (702, 703);
    (721, 721); (806, 811); (876, 876); (889, 889); (907, 907); (913, 914);
    (916, 929); (931, 931); (933, 942); (945, 947); (949, 960); (962, 962);
    (969, 969); (991, 991) ].

Definition in_range (h : Z) (r : Z * Z) : bool :=
  (fst r <=? h) && (h <=? snd r).

Definition in_historical_table (h : Z) : bool :=
  existsb (in_range h) historical_table.

(** The intervals that the rolling averages of Midas are taken over, most
    recent first: the difference of consecutive block times while a
    predecessor exists, the nominal spacing for each missing predecessor. *)
Fixpoint recent_intervals (n : nat) (c : chain) (spacing : Z) : list Z :=
  match n with
  | O => []
  | S n' =>
    match c with
    | b :: ((p :: _) as prev) =>
      (GetBlockTime b - GetBlockTime p) :: recent_intervals n' prev spacing
    | _ => spacing :: recent_intervals n' [] spacing
    end
  end.

(** The four sums after the intervals [l] have been added from offset
    [off] on, as the loop body of [avgRecentTimestamps] does. *)
Fixpoint add_intervals (off : Z) (l : list Z) (sums : Z * Z * Z * Z)
  : Z * Z * Z * Z :=
  match l with
  | [] => sums
  | d :: l' =>
    let '(s5, s7, s9, s17) := sums in
    add_intervals (off + 1) l'
      (if off <? 5 then s5 + d else s5,
       if off <? 7 then s7 + d else s7,
       if off <? 9 then s9 + d else s9,
       s17 + d)
  end.

Definition sumZ (l : list Z) : Z := fold_right Z.add 0 l.

(** A packed value that the encoder reproduces from its own decoding. *)
Definition canonical (nCompact : Z) : Prop :=
  GetCompact (decode nCompact) = nCompact.

(** The packed value [r] decodes without flags to a magnitude in
    [[lo, limit]]. *)
Definition decodes_within (lo : Z) (r : Z) (limit : Z) : Prop :=
  exists v, SetCompact r = (v, false, false) /\ lo <= v <= limit.

(** The three ceilings are non-zero 256-bit magnitudes. *)
Definition limits_ok (params : Params) : Prop :=
  0 < powLimit params < 2 ^ 256
  /\ 0 < posLimit params < 2 ^ 256
  /\ 0 < hybridPowLimit params < 2 ^ 256.

(** The ceiling of the track in the single-track eras. *)
Definition track_limit (params : Params) (fProofOfStake : bool) : Z :=
  if fProofOfStake then posLimit params else powLimit params.



(** Timestamps do not decrease from a block to its successor. *)
Fixpoint times_ascend (c : chain) : Prop :=
  match c with
  | [] => True
  | b :: prev =>
    match prev with
    | [] => True
    | p :: _ => GetBlockTime p <= GetBlockTime b /\ times_ascend prev
    end
  end.

(** [k] steps of the hybrid walker over work blocks, as the window loop of
    Hybrid PoW takes them. *)
Fixpoint hybrid_steps (k : nat) (pindex : chain) (nMinHeight : Z) : chain :=
  match k with
  | O => pindex
  | S k' =>
    hybrid_steps k' (GetHybridPrevIndex pindex false nMinHeight) nMinHeight
  end.

(** The walk of Hybrid PoW has run out at [pindex]: no block, or a block at
    or below the hybrid start height. *)
Definition walk_exhausted (pindex : chain) (params : Params) : Prop :=
  match pindex with
  | [] => True
  | b :: _ => nHeight b <= POSPOWStartHeight params
  end.

(** The block [k] links behind the head of the chain. *)
Definition block_at (k : nat) (c : chain) : CBlockIndex :=
  nth k c (mkBlock 0 0 0 0).

(** The clamp of the averaged-window algorithms. *)
Definition cap (limit bnNew : Z) : Z :=
  if bnNew >? limit then limit else bnNew.

(** The last step of [GetNextWorkRequiredPivx] on an averaged target [avg]
    and a window of [count] blocks spanning [span] seconds: clamp the span
    to a third and three times the nominal span, rescale, clamp to the
    limit, encode. *)
Definition pivx_rescale (avg span count : Z) (params : Params) (limit : Z)
  : option Z :=
  let _nTargetTimespan := count * nPosTargetSpacing params in
  let span :=
    if span <? Z.quot _nTargetTimespan 3
    then Z.quot _nTargetTimespan 3 else span in
  let span :=
    if span >? _nTargetTimespan * 3 then _nTargetTimespan * 3 else span in
  bnNew <- Arith256.div (mul32 avg span) _nTargetTimespan ;;
  Some (GetCompact (cap limit bnNew)).

(** The last step of [HybridPoWDarkGravityWave] on an averaged target
    [avg] and a window spanning [span] seconds: clamp the span to a quarter
    and four times the nominal span of 24 blocks, rescale, clamp to the
    hybrid PoW ceiling, encode. *)
Definition hybrid_rescale (avg span : Z) (params : Params) : option Z :=
  let nTargetTimespan := 24 * nHybridPowTargetSpacing params in
  let span :=
    if span <? Z.quot nTargetTimespan 4
    then Z.quot nTargetTimespan 4 else span in
  let span :=
    if span >? nTargetTimespan * 4 then nTargetTimespan * 4 else span in
  bnNew <- Arith256.div (mul32 avg span) nTargetTimespan ;;
  Some (GetCompact (cap (hybridPowLimit params) bnNew)).

(** The work block reached after [j] steps of the walker from [pindex]
    exists, lies above the hybrid start height and carries the decoded
    target [T]. *)
Definition window_block (j : nat) (pindex : chain) (params : Params) (T : Z)
  : Prop :=
  match hybrid_steps j pindex (POSPOWStartHeight params) with
  | [] => False
  | b :: _ => POSPOWStartHeight params < nHeight b /\ decode (nBits b) = T
  end.

(** Ranges of the types [int] and [uint32_t]. *)
Definition is_int (z : Z) : Prop := - 2 ^ 31 <= z < 2 ^ 31.

Definition is_uint32 (z : Z) : Prop := 0 <= z < 2 ^ 32.

(** The fields of a block hold values of their types: [nHeight] is an
    [int], [nTime] and [nBits] are [uint32_t]. *)
Definition block_typed (b : CBlockIndex) : Prop :=
  is_int (nHeight b) /\ is_uint32 (nTime b) /\ is_uint32 (nBits b).

Fixpoint chain_typed (c : chain) : Prop :=
  match c with
  | [] => True
  | b :: prev => block_typed b /\ chain_typed prev
  end.

(** Parameters under which, on a chain of typed blocks, no retarget
    function divides by zero, runs off its end or takes an [int] or
    [int64_t] value out of range.
    - The PoS start height is not above the hybrid start height (the
      [return] of Hybrid PoS), and adding 3 to it stays an [int] (the
      testnet test of the averaged window adds 3 to a height at or below
      it).
    - The hybrid and averaged-window start heights are [int]s (24 is added
      to each in [int64_t]).
    - The spacings are positive, and their largest products are below
      [2^63]: 41 spacings in Hybrid PoS, 4 times 24 spacings in Hybrid PoW,
      3 times 24 spacings in the averaged window; the PoW spacing, taken 4
      times and added to a timestamp, is at most [2^60] in magnitude.
    - The Midas spacing and timespan are at most [2^30]: the schedule
      multiplies the spacing by an [int] height, and the desired interval
      adds two products of a span below the timespan and an interval of at
      most 11/10 spacings. *)
Definition params_sane (params : Params) : Prop :=
  POSStartHeight params <= POSPOWStartHeight params
  /\ POSStartHeight params + 3 < 2 ^ 31
  /\ is_int (POSPOWStartHeight params)
  /\ is_int (DGWDifficultyStartHeight params)
  /\ 0 < nHybridPosTargetSpacing params
  /\ 41 * nHybridPosTargetSpacing params < 2 ^ 63
  /\ 0 < nHybridPowTargetSpacing params
  /\ 96 * nHybridPowTargetSpacing params < 2 ^ 63
  /\ - 2 ^ 60 <= nPowTargetSpacing params <= 2 ^ 60
  /\ 0 < nPosTargetSpacing params
  /\ 72 * nPosTargetSpacing params < 2 ^ 63
  /\ 2 <= nPosTargetSpacingMidas params <= 2 ^ 30
  /\ 1 <= nPosTargetTimespanMidas params <= 2 ^ 30.

(** ** Sample inputs *)

(** Values for the ambient constants: a mask with the staking bit inside,
    and a genesis timestamp. *)
Definition sample_mask : Z := 3840.
Definition sample_staking : Z := 256.
Definition sample_genesis_time : Z := 1486045800.

(** Header versions of a stake block and of a work block under
    [sample_mask] and [sample_staking]. *)
Definition stake_version : Z := 256.
Definition work_version : Z := 512.

(** A parameter set with main-network-like spacings and heights: the PoS
    ceiling is below the PoW ceiling, Midas starts at 176500, the averaged
    window at 550000 and the hybrid era at 1320000. *)
Definition sample_params (noRetargeting : bool) : Params :=
  {| powLimit := 2 ^ 244 - 1;
     posLimit := 2 ^ 232 - 1;
     hybridPowLimit := 2 ^ 236 - 1;
     nPowTargetSpacing := 64;
     nHybridPowTargetSpacing := 120;
     nHybridPosTargetSpacing := 120;
     nPosTargetSpacing := 64;
     nPosTargetSpacingMidas := 64;
     nPosTargetTimespanMidas := 604800;
     POSStartHeight := 1000;
     POSPOWStartHeight := 1320000;
     DGWDifficultyStartHeight := 550000;
     MidasStartHeight := 176500;
     nMinimumDifficultyBlocks := 0;
     fPowNoRetargeting := noRetargeting;
     fPowAllowMinDifficultyBlocks := false |}.

(** The same parameters with the hybrid era starting at height 100, below
    the PoS start height 1000. *)
Definition early_hybrid_params : Params :=
  {| powLimit := 2 ^ 244 - 1;
     posLimit := 2 ^ 232 - 1;
     hybridPowLimit := 2 ^ 236 - 1;
     nPowTargetSpacing := 64;
     nHybridPowTargetSpacing := 120;
     nHybridPosTargetSpacing := 120;
     nPosTargetSpacing := 64;
     nPosTargetSpacingMidas := 64;
     nPosTargetTimespanMidas := 604800;
     POSStartHeight := 1000;
     POSPOWStartHeight := 100;
     DGWDifficultyStartHeight := 50;
     MidasStartHeight := 20;
     nMinimumDifficultyBlocks := 0;
     fPowNoRetargeting := false;
     fPowAllowMinDifficultyBlocks := false |}.

(** [n] blocks, most recent first, from [height] and [time] downwards,
    [spacing] seconds apart, with the same packed target and version. *)
Fixpoint regular_chain (n : nat) (height time spacing bits version : Z)
  : chain :=
  match n with
  | O => []
  | S n' =>
    mkBlock height time bits version
    :: regular_chain n' (height - 1) (time - spacing) spacing bits version
  end.

(** Packed targets: [0x1e0fffff] is canonical; [0x01123456] is not (its
    low two mantissa bytes are shifted out by the decoder). *)
Definition bits_1e0fffff : Z := 504365055.
Definition bits_01123456 : Z := 17970262.

(** Other packed targets: [0x1d00ffff], and [0x01010000], which decodes
    to 1. *)
Definition bits_1d00ffff : Z := 486604799.

(** A time exactly on the schedule of Midas for height 200000. *)
Definition on_schedule_time : Z := sample_genesis_time + 200000 * 64.

(** Eighteen stake blocks up to height 200000, [spacing] seconds apart, the
    most recent one exactly on schedule. *)
Definition midas_chain (spacing bits : Z) : chain :=
  mkBlock 200000 on_schedule_time bits stake_version
  :: regular_chain 17 199999 (on_schedule_time - spacing) spacing bits
       stake_version.

(** Eighteen stake blocks up to height 200000: the last seventeen are 50
    seconds apart, and the oldest one carries a timestamp 5645 seconds after
    its successor's. *)
Definition midas_backdated_chain : chain :=
  regular_chain 17 200000 on_schedule_time 50 bits_1e0fffff stake_version
  ++ [mkBlock 199983 (on_schedule_time + 4845) bits_1e0fffff stake_version].

(** Three work blocks of the legacy era, heights 100 down to 98, [spacing]
    seconds apart. *)
Definition legacy_chain (spacing bits : Z) : chain :=
  mkBlock 100 (sample_genesis_time + 6400) bits work_version
  :: regular_chain 2 99 (sample_genesis_time + 6400 - spacing) spacing bits
       work_version.

(** Five blocks, heights 10 down to 6: work, work, stake, work, stake. *)
Definition walker_chain : chain :=
  [ mkBlock 10 0 0 work_version; mkBlock 9 0 0 work_version;
    mkBlock 8 0 0 stake_version; mkBlock 7 0 0 work_version;
    mkBlock 6 0 0 stake_version ].

(** A full averaged-window of 24 stake blocks, heights 200 down to 177 and
    64 seconds apart, and six older blocks behind it. *)
Definition dgw_window : chain :=
  regular_chain 24 200 on_schedule_time 64 bits_1e0fffff stake_version.

Definition dgw_older : chain :=
  regular_chain 6 176 (on_schedule_time - 24 * 64) 64 bits_1e0fffff
    stake_version.

(** Thirty work blocks of the hybrid era, heights 1320050 down to 1320021
    and 100 seconds apart: the most recent one and its ancestors. *)
Definition hybrid_work_head : CBlockIndex :=
  mkBlock 1320050 on_schedule_time bits_1e0fffff work_version.

Definition hybrid_work_anc : chain :=
  regular_chain 29 1320049 (on_schedule_time - 100) 100 bits_1e0fffff
    work_version.

(** ** Properties of the compact codec *)

Lemma land_bit23 : forall a,
  Z.land a 8388608 = if Z.testbit a 23 then 8388608 else 0.
Proof.
  intros a. apply Z.bits_inj'. intros i Hi.
  rewrite Z.land_spec. change 8388608 with (2 ^ 23).
  destruct (Z.eq_dec i 23) as [->|Hne].
  - rewrite Z.pow2_bits_true by lia. rewrite Bool.andb_true_r.
    destruct (Z.testbit a 23) eqn:E.
    + rewrite Z.pow2_bits_true by lia. reflexivity.
    + rewrite Z.bits_0. reflexivity.
  - rewrite (Z.pow2_bits_false 23 i) by lia. rewrite Bool.andb_false_r.
    destruct (Z.testbit a 23).
    + rewrite Z.pow2_bits_false by lia. reflexivity.
    + rewrite Z.bits_0. reflexivity.
Qed.

Lemma testbit23_small : forall m, 0 <= m < 2 ^ 24 ->
  Z.testbit m 23 = (2 ^ 23 <=? m).
Proof.
  intros m Hm. rewrite Z.testbit_eqb by lia.
  assert (H : m / 2 ^ 23 = 0 \/ m / 2 ^ 23 = 1).
  { assert (0 <= m / 2 ^ 23 < 2).
    { split; [apply Z.div_pos; lia | apply Z.div_lt_upper_bound; lia]. }
    lia. }
  destruct (2 ^ 23 <=? m) eqn:E.
  - apply Z.leb_le in E. destruct H as [H|H].
    + apply Z.div_small_iff in H; lia.
    + rewrite H. reflexivity.
  - apply Z.leb_gt in E. rewrite Z.div_small by lia. reflexivity.
Qed.

Lemma sign_bit_test : forall m, 0 <= m < 2 ^ 24 ->
  (Z.land m 8388608 =? 0) = (m <? 2 ^ 23).
Proof.
  intros m Hm. rewrite land_bit23, testbit23_small by assumption.
  destruct (2 ^ 23 <=? m) eqn:E.
  - apply Z.leb_le in E. symmetry. apply Z.ltb_ge. assumption.
  - apply Z.leb_gt in E. symmetry. apply Z.ltb_lt. assumption.
Qed.

Lemma packed_parts : forall m n, 0 <= m < 2 ^ 23 -> 0 <= n ->
  Z.shiftr (Z.lor m (Z.shiftl n 24)) 24 = n
  /\ Z.land (Z.lor m (Z.shiftl n 24)) 8388607 = m
  /\ Z.land (Z.lor m (Z.shiftl n 24)) 8388608 = 0.
Proof.
  intros m n Hm Hn. repeat split.
  - rewrite Z.shiftr_lor, Z.shiftr_shiftl_l by lia.
    rewrite Z.shiftr_div_pow2, Z.div_small by lia.
    rewrite Z.sub_diag, Z.shiftl_0_r. apply Z.lor_0_l.
  - rewrite Z.land_lor_distr_l. change 8388607 with (Z.ones 23).
    rewrite !Z.land_ones by lia. rewrite Z.shiftl_mul_pow2 by lia.
    replace (n * 2 ^ 24) with (n * 2 * 2 ^ 23)
      by (change (2 ^ 24) with (2 * 2 ^ 23); ring).
    rewrite Z.mod_mul by lia. rewrite Z.mod_small by lia. apply Z.lor_0_r.
  - rewrite land_bit23, Z.lor_spec, Z.shiftl_spec_low by lia.
    rewrite testbit23_small by lia.
    replace (2 ^ 23 <=? m) with false by (symmetry; apply Z.leb_gt; lia).
    reflexivity.
Qed.

(** Decoding of a packed word given by mantissa and exponent. *)
Lemma SetCompact_packed : forall m n, 0 <= m < 2 ^ 23 -> 0 <= n ->
  SetCompact (Z.lor m (Z.shiftl n 24))
  = (if n <=? 3 then Z.shiftr m (8 * (3 - n))
     else Z.shiftl m (8 * (n - 3)) mod two256,
     false,
     negb ((if n <=? 3 then Z.shiftr m (8 * (3 - n)) else m) =? 0)
     && (3 <? n) && (256 <? bits (Z.shiftl m (8 * (n - 3))))).
Proof.
  intros m n Hm Hn. unfold SetCompact.
  destruct (packed_parts m n Hm Hn) as (-> & -> & ->).
  rewrite Z.eqb_refl. cbn [negb]. rewrite Bool.andb_false_r.
  destruct (n <=? 3); reflexivity.
Qed.

Lemma bits_le_iff : forall y k, 0 <= y -> 0 <= k -> y < 2 ^ k -> bits y <= k.
Proof.
  intros y k Hy Hk Hlt. unfold bits.
  destruct (y <=? 0) eqn:E; [lia|]. apply Z.leb_gt in E.
  apply Z.log2_lt_pow2 in Hlt; lia.
Qed.

Lemma byte_size_unique : forall x n,
  1 <= n -> 2 ^ (8 * (n - 1)) <= x < 2 ^ (8 * n) -> byte_size x = n.
Proof.
  intros x n Hn [Hlo Hhi].
  assert (Hx : 0 < x).
  { pose proof (Z.pow_pos_nonneg 2 (8 * (n - 1))). lia. }
  unfold byte_size, bits.
  replace (x <=? 0) with false by (symmetry; apply Z.leb_gt; assumption).
  apply Z.log2_lt_pow2 in Hhi; [|assumption].
  apply Z.log2_le_pow2 in Hlo; [|assumption].
  rewrite Z.quot_div_nonneg by lia.
  symmetry. apply Z.div_unique with (r := Z.log2 x + 1 + 7 - 8 * n); lia.
Qed.

Lemma byte_size_bounds : forall x, 0 < x ->
  1 <= byte_size x
  /\ 2 ^ (8 * (byte_size x - 1)) <= x < 2 ^ (8 * byte_size x).
Proof.
  intros x Hx. unfold byte_size, bits.
  replace (x <=? 0) with false by (symmetry; apply Z.leb_gt; assumption).
  pose proof (Z.log2_nonneg x) as Hl.
  rewrite Z.quot_div_nonneg by lia.
  pose proof (Z.div_mod (Z.log2 x + 1 + 7) 8 ltac:(lia)) as Hdm.
  pose proof (Z.mod_pos_bound (Z.log2 x + 1 + 7) 8 ltac:(lia)) as Hmb.
  set (n := (Z.log2 x + 1 + 7) / 8) in *.
  destruct (Z.log2_spec x Hx) as [H1 H2].
  assert (1 <= n) by lia.
  split; [assumption|]. split.
  - apply Z.le_trans with (2 ^ Z.log2 x); [|assumption].
    apply Z.pow_le_mono_r; lia.
  - apply Z.lt_le_trans with (2 ^ Z.succ (Z.log2 x)); [assumption|].
    apply Z.pow_le_mono_r; lia.
Qed.

Lemma GetCompact_cases : forall x n m0,
  byte_size x = n ->
  m0 = (if n <=? 3 then Z.shiftl x (8 * (3 - n))
        else Z.shiftr x (8 * (n - 3))) ->
  0 <= m0 < 2 ^ 24 ->
  GetCompact x
  = if m0 <? 2 ^ 23 then Z.lor m0 (Z.shiftl n 24)
    else Z.lor (Z.shiftr m0 8) (Z.shiftl (n + 1) 24).
Proof.
  intros x n m0 Hn Hm0 Hr. unfold GetCompact. fold (byte_size x).
  rewrite Hn, <- Hm0. rewrite sign_bit_test by assumption.
  destruct (m0 <? 2 ^ 23); reflexivity.
Qed.

Lemma no_overflow_flag : forall m n y,
  0 <= y < two256 ->
  Z.shiftl m (8 * (n - 3)) = y ->
  negb ((if n <=? 3 then Z.shiftr m (8 * (3 - n)) else m) =? 0)
  && (3 <? n) && (256 <? bits (Z.shiftl m (8 * (n - 3)))) = false.
Proof.
  intros m n y Hy ->.
  replace (256 <? bits y) with false; [apply Bool.andb_false_r|].
  symmetry. apply Z.ltb_ge. apply bits_le_iff; unfold two256 in Hy; lia.
Qed.

(** A packed word of exponent at most 3 decodes by a right shift, with no
    flag. *)
Lemma SetCompact_packed_small : forall m n k x,
  0 <= m < 2 ^ 23 -> 0 <= n <= 3 -> k = 2 ^ (8 * (3 - n)) -> m = x * k ->
  SetCompact (Z.lor m (Z.shiftl n 24)) = (x, false, false).
Proof.
  intros m n k x Hm Hn Hk Hx. rewrite SetCompact_packed by lia.
  replace (n <=? 3) with true by (symmetry; apply Z.leb_le; lia).
  replace (3 <? n) with false by (symmetry; apply Z.ltb_ge; lia).
  rewrite Bool.andb_false_r. cbn [andb].
  rewrite Z.shiftr_div_pow2 by lia. rewrite <- Hk, Hx.
  rewrite Z.div_mul; [reflexivity|].
  subst k. apply Z.pow_nonzero; lia.
Qed.

(** Encoding of a magnitude of at most three bytes. *)
Lemma GetCompact_decode_small : forall x, 0 < x < 2 ^ 24 ->
  exists v, SetCompact (GetCompact x) = (v, false, false)
            /\ 0 < v <= x /\ GetCompact v = GetCompact x.
Proof.
  intros x Hx.
  destruct (byte_size_bounds x ltac:(lia)) as (Hn1 & Hlo & Hhi).
  assert (Hn3 : byte_size x <= 3).
  { destruct (Z_le_gt_dec (byte_size x) 3) as [|Hgt]; [assumption|exfalso].
    assert (2 ^ 24 <= 2 ^ (8 * (byte_size x - 1)))
      by (apply Z.pow_le_mono_r; lia).
    lia. }
  assert (Hcase : byte_size x = 1 \/ byte_size x = 2 \/ byte_size x = 3) by lia.
  destruct Hcase as [En | [En | En]]; rewrite En in Hlo, Hhi;
    cbn in Hlo, Hhi.
  - (* one byte *)
    assert (Hc := GetCompact_cases x 1 (x * 65536) En).
    rewrite Z.shiftl_mul_pow2 in Hc by lia.
    specialize (Hc eq_refl ltac:(lia)).
    rewrite Z.shiftr_div_pow2 in Hc by lia. change (2 ^ 8) with 256 in Hc.
    replace (x * 65536) with (x * 256 * 256) in Hc by ring.
    rewrite Z.div_mul in Hc by lia.
    exists x. split; [|split; [lia | reflexivity]]. rewrite Hc.
    destruct (x * 256 * 256 <? 2 ^ 23) eqn:E;
      [apply Z.ltb_lt in E | apply Z.ltb_ge in E].
    + apply SetCompact_packed_small with (k := 65536);
        [lia | lia | reflexivity | ring].
    + apply SetCompact_packed_small with (k := 256);
        [lia | lia | reflexivity | ring].
  - (* two bytes *)
    assert (Hc := GetCompact_cases x 2 (x * 256) En).
    rewrite Z.shiftl_mul_pow2 in Hc by lia.
    specialize (Hc eq_refl ltac:(lia)).
    rewrite Z.shiftr_div_pow2 in Hc by lia. change (2 ^ 8) with 256 in Hc.
    rewrite Z.div_mul in Hc by lia.
    exists x. split; [|split; [lia | reflexivity]]. rewrite Hc.
    destruct (x * 256 <? 2 ^ 23) eqn:E;
      [apply Z.ltb_lt in E | apply Z.ltb_ge in E].
    + apply SetCompact_packed_small with (k := 256);
        [lia | lia | reflexivity | ring].
    + apply SetCompact_packed_small with (k := 1);
        [lia | lia | reflexivity | ring].
  - (* three bytes *)
    assert (Hc := GetCompact_cases x 3 x En).
    change (8 * (3 - 3)) with 0 in Hc. rewrite Z.shiftl_0_r in Hc.
    specialize (Hc eq_refl ltac:(lia)).
    rewrite Z.shiftr_div_pow2 in Hc by lia. change (2 ^ 8) with 256 in Hc.
    destruct (x <? 2 ^ 23) eqn:E;
      [apply Z.ltb_lt in E | apply Z.ltb_ge in E].
    + exists x. split; [|split; [lia | reflexivity]]. rewrite Hc.
      apply SetCompact_packed_small with (k := 1);
        [lia | lia | reflexivity | ring].
    + assert (Hq : 2 ^ 15 <= x / 256 < 2 ^ 16).
      { split; [apply Z.div_le_lower_bound | apply Z.div_lt_upper_bound]; lia. }
      pose proof (Z.mul_div_le x 256 ltac:(lia)) as Hle.
      exists (x / 256 * 256). rewrite Hc.
      rewrite SetCompact_packed by lia. change (3 + 1) with 4.
      rewrite (no_overflow_flag _ 4 (x / 256 * 256))
        by (try (rewrite Z.shiftl_mul_pow2 by lia; reflexivity);
            unfold two256; lia).
      cbn [Z.leb Z.compare Pos.compare Pos.compare_cont].
      change (8 * (4 - 3)) with 8.
      rewrite Z.shiftl_mul_pow2 by lia. change (2 ^ 8) with 256.
      rewrite Z.mod_small by (unfold two256; lia).
      split; [reflexivity|]. split; [lia|].
      assert (Ev : byte_size (x / 256 * 256) = 3)
        by (apply byte_size_unique; cbn; lia).
      assert (Hv := GetCompact_cases (x / 256 * 256) 3 (x / 256 * 256) Ev).
      change (8 * (3 - 3)) with 0 in Hv. rewrite Z.shiftl_0_r in Hv.
      specialize (Hv eq_refl ltac:(lia)). rewrite Hv.
      replace (x / 256 * 256 <? 2 ^ 23) with false
        by (symmetry; apply Z.ltb_ge; lia).
      rewrite Z.shiftr_div_pow2 by lia. change (2 ^ 8) with 256.
      rewrite Z.div_mul by lia. reflexivity.
Qed.

(** A packed word of exponent above 3 whose shifted mantissa fits 256 bits
    decodes by a left shift, with no flag. *)
Lemma SetCompact_packed_large : forall m n P,
  0 <= m < 2 ^ 23 -> 3 < n -> P = 2 ^ (8 * (n - 3)) -> m * P < two256 ->
  SetCompact (Z.lor m (Z.shiftl n 24)) = (m * P, false, false).
Proof.
  intros m n P Hm Hn HP Hlt.
  assert (0 < P) by (subst P; apply Z.pow_pos_nonneg; lia).
  rewrite SetCompact_packed by lia.
  assert (0 <= m * P) by (apply Z.mul_nonneg_nonneg; lia).
  rewrite (no_overflow_flag m n (m * P))
    by (try (rewrite Z.shiftl_mul_pow2 by lia; subst P; reflexivity); lia).
  replace (n <=? 3) with false by (symmetry; apply Z.leb_gt; lia).
  rewrite Z.shiftl_mul_pow2 by lia. rewrite <- HP.
  rewrite Z.mod_small by lia. reflexivity.
Qed.

(** Encoding of a magnitude of more than three bytes. *)
Lemma GetCompact_decode_large : forall x, 2 ^ 24 <= x < 2 ^ 256 ->
  exists v, SetCompact (GetCompact x) = (v, false, false)
            /\ 0 < v <= x /\ GetCompact v = GetCompact x.
Proof.
  intros x Hx.
  destruct (byte_size_bounds x ltac:(lia)) as (Hn1 & Hlo & Hhi).
  set (n := byte_size x) in *.
  assert (Hn3 : 3 < n).
  { destruct (Z_lt_le_dec 3 n) as [|Hle]; [assumption|exfalso].
    assert (2 ^ (8 * n) <= 2 ^ 24) by (apply Z.pow_le_mono_r; lia).
    lia. }
  set (P := 2 ^ (8 * (n - 3))).
  assert (HP : 0 < P) by (apply Z.pow_pos_nonneg; lia).
  assert (E16 : 2 ^ (8 * (n - 1)) = 2 ^ 16 * P).
  { unfold P. rewrite <- Z.pow_add_r by lia. f_equal. ring. }
  assert (E24 : 2 ^ (8 * n) = 2 ^ 24 * P).
  { unfold P. rewrite <- Z.pow_add_r by lia. f_equal. ring. }
  assert (Hlo' : 2 ^ 16 * P <= x) by (rewrite <- E16; assumption).
  assert (Hhi' : x < 2 ^ 24 * P) by (rewrite <- E24; assumption).
  set (q := x / P).
  assert (Hq : 2 ^ 16 <= q < 2 ^ 24).
  { split; [apply Z.div_le_lower_bound | apply Z.div_lt_upper_bound]; lia. }
  assert (HqP : q * P <= x)
    by (unfold q; rewrite Z.mul_comm; apply Z.mul_div_le; lia).
  assert (Hc := GetCompact_cases x n q eq_refl).
  replace (n <=? 3) with false in Hc by (symmetry; apply Z.leb_gt; lia).
  rewrite Z.shiftr_div_pow2 in Hc by lia. fold P in Hc.
  specialize (Hc eq_refl ltac:(lia)).
  rewrite Z.shiftr_div_pow2 in Hc by lia. change (2 ^ 8) with 256 in Hc.
  (* the value that the packed word stands for, and its own encoding *)
  assert (Hre : forall q', 2 ^ 16 <= q' < 2 ^ 24 ->
            GetCompact (q' * P)
            = if q' <? 2 ^ 23 then Z.lor q' (Z.shiftl n 24)
              else Z.lor (q' / 256) (Z.shiftl (n + 1) 24)).
  { intros q' Hq'.
    assert (Ev : byte_size (q' * P) = n).
    { apply byte_size_unique; [lia|]. rewrite E16, E24.
      split; [apply Z.mul_le_mono_nonneg_r | apply Z.mul_lt_mono_pos_r]; lia. }
    assert (Hv := GetCompact_cases (q' * P) n q' Ev).
    replace (n <=? 3) with false in Hv by (symmetry; apply Z.leb_gt; lia).
    rewrite Z.shiftr_div_pow2 in Hv by lia. fold P in Hv.
    rewrite Z.div_mul in Hv by lia.
    specialize (Hv eq_refl ltac:(lia)).
    rewrite Z.shiftr_div_pow2 in Hv by lia. exact Hv. }
  destruct (q <? 2 ^ 23) eqn:E;
    [apply Z.ltb_lt in E | apply Z.ltb_ge in E].
  - exists (q * P). rewrite Hc.
    rewrite (SetCompact_packed_large q n P)
      by (try reflexivity; unfold two256; lia).
    assert (0 < q * P) by (apply Z.mul_pos_pos; lia).
    split; [reflexivity|]. split; [lia|].
    rewrite Hre by lia.
    replace (q <? 2 ^ 23) with true by (symmetry; apply Z.ltb_lt; lia).
    reflexivity.
  - assert (Hm : 2 ^ 15 <= q / 256 < 2 ^ 16).
    { split; [apply Z.div_le_lower_bound | apply Z.div_lt_upper_bound]; lia. }
    pose proof (Z.mul_div_le q 256 ltac:(lia)) as Hle.
    assert (0 < q / 256 * 256 * P) by (apply Z.mul_pos_pos; lia).
    assert (q / 256 * 256 * P <= q * P)
      by (apply Z.mul_le_mono_nonneg_r; lia).
    exists (q / 256 * 256 * P). rewrite Hc.
    rewrite (SetCompact_packed_large (q / 256) (n + 1) (256 * P)).
    + split; [f_equal; f_equal; ring|]. split; [lia|].
      rewrite Hre by lia.
      replace (q / 256 * 256 <? 2 ^ 23) with false
        by (symmetry; apply Z.ltb_ge; lia).
      rewrite Z.div_mul by lia. reflexivity.
    + lia.
    + lia.
    + unfold P. replace (8 * (n + 1 - 3)) with (8 + 8 * (n - 3)) by ring.
      rewrite Z.pow_add_r by lia. reflexivity.
    + unfold two256. replace (q / 256 * (256 * P)) with (q / 256 * 256 * P) by ring.
      lia.
Qed.

(** The encoder and the decoder on every 256-bit magnitude: the packed word
    decodes without flags to a magnitude that is positive, at most the
    encoded one, and encoded to the same word. *)
Lemma GetCompact_decode : forall x, 0 < x < 2 ^ 256 ->
  exists v, SetCompact (GetCompact x) = (v, false, false)
            /\ 0 < v <= x /\ GetCompact v = GetCompact x.
Proof.
  intros x Hx. destruct (Z_lt_le_dec x (2 ^ 24)).
  - apply GetCompact_decode_small. lia.
  - apply GetCompact_decode_large. lia.
Qed.

Lemma GetCompact_zero : GetCompact 0 = 0 /\ SetCompact 0 = (0, false, false).
Proof. split; reflexivity. Qed.

(** The encoding of a magnitude within a ceiling decodes within it. *)
Lemma GetCompact_within : forall x limit,
  0 <= x <= limit -> limit < 2 ^ 256 ->
  decodes_within (if x =? 0 then 0 else 1) (GetCompact x) limit.
Proof.
  intros x limit Hx Hl. destruct (x =? 0) eqn:E.
  - apply Z.eqb_eq in E. subst x. exists 0. split; [reflexivity | lia].
  - apply Z.eqb_neq in E.
    destruct (GetCompact_decode x ltac:(lia)) as (v & Hv & Hr & _).
    exists v. split; [assumption | lia].
Qed.

Lemma decodes_within_weaken : forall lo lo' r limit limit',
  decodes_within lo r limit -> lo' <= lo -> limit <= limit' ->
  decodes_within lo' r limit'.
Proof.
  intros lo lo' r limit limit' (v & Hv & Hr) Hlo Hli.
  exists v. split; [assumption | lia].
Qed.

(** Every output of the encoder is canonical. *)
Lemma GetCompact_canonical : forall x, 0 <= x < 2 ^ 256 ->
  canonical (GetCompact x).
Proof.
  intros x Hx. unfold canonical, decode.
  destruct (Z.eq_dec x 0) as [->|Hne]; [reflexivity|].
  destruct (GetCompact_decode x ltac:(lia)) as (v & Hv & _ & Hr).
  rewrite Hv. exact Hr.
Qed.

(** ** Properties of the hybrid walker *)

Lemma heights_descend_tail : forall b prev,
  heights_descend (b :: prev) -> heights_descend prev.
Proof.
  intros b [|p rest] H; simpl in *; [exact I | tauto].
Qed.

Lemma heights_descend_below : forall b prev q,
  heights_descend (b :: prev) -> In q prev -> nHeight q < nHeight b.
Proof.
  intros b prev; revert b.
  induction prev as [|p rest IH]; intros b q Hd Hin.
  - destruct Hin.
  - destruct Hd as [Hlt Hd]. destruct Hin as [->|Hin]; [assumption|].
    specialize (IH p q Hd Hin). lia.
Qed.

Lemma nearest_matching_none : forall anc want_stake min_height,
  (forall q, In q anc -> IsStaking q = want_stake -> nHeight q < min_height) ->
  nearest_matching anc want_stake min_height = [].
Proof.
  induction anc as [|p rest IH]; intros want_stake min_height Hlow; simpl.
  - reflexivity.
  - destruct (Bool.eqb (IsStaking p) want_stake) eqn:Et; simpl.
    + apply Bool.eqb_prop in Et.
      pose proof (Hlow p (or_introl eq_refl) Et) as Hp.
      destruct (min_height <=? nHeight p) eqn:El; [apply Z.leb_le in El; lia|].
      apply IH. intros q Hq. apply Hlow. now right.
    + apply IH. intros q Hq. apply Hlow. now right.
Qed.

(** The walker answers with a block of the requested type at or above the
    floor, or with none. *)
Lemma GetHybridPrevIndex_sound : forall pindex fPos nMinHeight p rest,
  GetHybridPrevIndex pindex fPos nMinHeight = p :: rest ->
  IsStaking p = fPos /\ nMinHeight <= nHeight p.
Proof.
  induction pindex as [|b prev IH]; intros fPos nMinHeight p rest H.
  - discriminate.
  - simpl in H. destruct prev as [|q prev']; [discriminate|].
    destruct (nHeight q <? nMinHeight) eqn:El; [discriminate|].
    apply Z.ltb_ge in El.
    destruct (Bool.eqb (IsStaking q) fPos) eqn:Et.
    + injection H as -> _. apply Bool.eqb_prop in Et. split; assumption.
    + eapply IH; eassumption.
Qed.

(** On any chain the walker answers none, or the first ancestor of the
    requested type, every block skipped on the way being of the other type
    and at or above the floor. *)
Lemma GetHybridPrevIndex_skips : forall pindex fPos nMinHeight,
  GetHybridPrevIndex pindex fPos nMinHeight = []
  \/ exists skipped b rest,
       pprev pindex = skipped ++ b :: rest
       /\ GetHybridPrevIndex pindex fPos nMinHeight = b :: rest
       /\ IsStaking b = fPos /\ nMinHeight <= nHeight b
       /\ forall q, In q skipped ->
                    IsStaking q <> fPos /\ nMinHeight <= nHeight q.
Proof.
  induction pindex as [|b0 prev IH]; intros fPos nMinHeight.
  - left. reflexivity.
  - destruct prev as [|p rest']; [left; reflexivity|].
    change (GetHybridPrevIndex (b0 :: p :: rest') fPos nMinHeight)
      with (if nHeight p <? nMinHeight then []
            else if Bool.eqb (IsStaking p) fPos then p :: rest'
                 else GetHybridPrevIndex (p :: rest') fPos nMinHeight).
    change (pprev (b0 :: p :: rest')) with (p :: rest').
    destruct (nHeight p <? nMinHeight) eqn:El; [left; reflexivity|].
    apply Z.ltb_ge in El.
    destruct (Bool.eqb (IsStaking p) fPos) eqn:Et.
    + right. exists [], p, rest'. apply Bool.eqb_prop in Et.
      split; [reflexivity|]. split; [reflexivity|].
      split; [assumption|]. split; [assumption|]. intros q0 [].
    + apply Bool.eqb_false_iff in Et.
      destruct (IH fPos nMinHeight) as [Hnone | (skipped & b & rest & Hp & Hr & Hb)].
      * left. exact Hnone.
      * right. exists (p :: skipped), b, rest.
        change (pprev (p :: rest')) with rest' in Hp.
        destruct Hb as (Hty & Hh & Hsk).
        split; [rewrite Hp; reflexivity|].
        split; [exact Hr|]. split; [exact Hty|]. split; [exact Hh|].
        intros q [<- | Hq]; [split; assumption | apply Hsk; exact Hq].
Qed.

(** C7: the hybrid walker is a total function of the finite chain.  It
    answers none or the first strict ancestor of the requested type, having
    skipped only blocks of the other type at or above the floor.  On a chain
    whose heights descend along the predecessor links, that is the nearest
    strict ancestor of the start block that has the requested type and a
    height of at least the floor, and none when there is no such ancestor.
    In particular it returns none whenever the floor exceeds the height of
    every ancestor of the requested type. *)
Theorem GetHybridPrevIndex_nearest : forall pindex fPos nMinHeight,
  (GetHybridPrevIndex pindex fPos nMinHeight = []
   \/ exists skipped b rest,
        pprev pindex = skipped ++ b :: rest
        /\ GetHybridPrevIndex pindex fPos nMinHeight = b :: rest
        /\ IsStaking b = fPos /\ nMinHeight <= nHeight b
        /\ forall q, In q skipped ->
                     IsStaking q <> fPos /\ nMinHeight <= nHeight q)
  /\ (heights_descend pindex ->
      GetHybridPrevIndex pindex fPos nMinHeight
      = nearest_matching (pprev pindex) fPos nMinHeight)
  /\ ((forall q, In q (pprev pindex) -> IsStaking q = fPos ->
                 nHeight q < nMinHeight) ->
      GetHybridPrevIndex pindex fPos nMinHeight = []).
Proof.
  intros pindex fPos nMinHeight.
  split; [apply GetHybridPrevIndex_skips|]. split.
  - intros Hd.
    induction pindex as [|b prev IH]; [reflexivity|].
    destruct prev as [|p rest]; [reflexivity|].
    change (pprev (b :: p :: rest)) with (p :: rest).
    change (GetHybridPrevIndex (b :: p :: rest) fPos nMinHeight)
      with (if nHeight p <? nMinHeight then []
            else if Bool.eqb (IsStaking p) fPos then p :: rest
                 else GetHybridPrevIndex (p :: rest) fPos nMinHeight).
    pose proof (heights_descend_tail _ _ Hd) as Hd'.
    simpl nearest_matching.
    destruct (nHeight p <? nMinHeight) eqn:El.
    + apply Z.ltb_lt in El.
      replace (nMinHeight <=? nHeight p) with false
        by (symmetry; apply Z.leb_gt; lia).
      rewrite Bool.andb_false_r. symmetry. apply nearest_matching_none.
      intros q Hq _. pose proof (heights_descend_below _ _ _ Hd' Hq). lia.
    + apply Z.ltb_ge in El.
      replace (nMinHeight <=? nHeight p) with true
        by (symmetry; apply Z.leb_le; lia).
      rewrite Bool.andb_true_r.
      destruct (Bool.eqb (IsStaking p) fPos); [reflexivity|].
      rewrite (IH Hd'). reflexivity.
  - intros Hlow.
    destruct (GetHybridPrevIndex pindex fPos nMinHeight) as [|p rest] eqn:E;
      [reflexivity|exfalso].
    destruct (GetHybridPrevIndex_skips pindex fPos nMinHeight)
      as [Hnone | (skipped & b & rest0 & Hp & Hr & Hty & Hh & _)].
    + rewrite E in Hnone. discriminate.
    + assert (Hin : In b (pprev pindex))
        by (rewrite Hp; apply in_or_app; right; left; reflexivity).
      specialize (Hlow b Hin Hty). lia.
Qed.

(** ** Properties of the classifier *)

Lemma in_historical_table_iff : forall h,
  in_historical_table h = true
  <-> exists lo hi, In (lo, hi) historical_table /\ lo <= h <= hi.
Proof.
  intros h. unfold in_historical_table. rewrite existsb_exists. split.
  - intros [[lo hi] [Hin Hr]]. exists lo, hi. split; [assumption|].
    unfold in_range in Hr. simpl in Hr.
    apply Bool.andb_true_iff in Hr. destruct Hr as [H1 H2].
    apply Z.leb_le in H1. apply Z.leb_le in H2. lia.
  - intros (lo & hi & Hin & Hr). exists (lo, hi). split; [assumption|].
    unfold in_range. simpl. apply Bool.andb_true_iff.
    split; apply Z.leb_le; lia.
Qed.

(** Below the threshold, on the main network, the cascade of the source is
    the table lookup. *)
Lemma IsProofOfStakeHeight_table : forall h params,
  NetworkIDString = MAIN -> h < POSStartHeight params ->
  IsProofOfStakeHeight h params = in_historical_table h.
Proof.
  intros h params Hnet Hlt. unfold IsProofOfStakeHeight.
  replace (h >=? POSStartHeight params) with false
    by (symmetry; rewrite Z.geb_leb; apply Z.leb_gt; lia).
  rewrite Hnet. cbn [Network_eqb].
  unfold in_historical_table, historical_table, in_range.
  cbn [existsb fst snd]. rewrite !Z.geb_leb.
  repeat match goal with
         | |- context [?a && ?b] =>
           destruct (a && b); [reflexivity | cbn [orb]]
         end.
  reflexivity.
Qed.

(** C3: at or above the PoS start height the classifier answers true; below
    it, on the main network, it answers true exactly for the heights inside
    one of the literal inclusive ranges of the historical table (hence for
    every height of 450..1000 below the threshold it agrees with the table);
    below it on any other network it answers false. *)
Theorem IsProofOfStakeHeight_spec : forall h params,
  (POSStartHeight params <= h -> IsProofOfStakeHeight h params = true)
  /\ (h < POSStartHeight params -> NetworkIDString = MAIN ->
      (IsProofOfStakeHeight h params = true
       <-> exists lo hi, In (lo, hi) historical_table /\ lo <= h <= hi))
  /\ (h < POSStartHeight params -> NetworkIDString = MAIN ->
      450 <= h <= 1000 ->
      IsProofOfStakeHeight h params = in_historical_table h)
  /\ (h < POSStartHeight params -> NetworkIDString <> MAIN ->
      IsProofOfStakeHeight h params = false).
Proof.
  intros h params. split; [|split; [|split]].
  - intros Hge. unfold IsProofOfStakeHeight.
    replace (h >=? POSStartHeight params) with true; [reflexivity|].
    symmetry. rewrite Z.geb_leb. apply Z.leb_le. lia.
  - intros Hlt Hnet. rewrite (IsProofOfStakeHeight_table h params Hnet Hlt).
    apply in_historical_table_iff.
  - intros Hlt Hnet _. apply IsProofOfStakeHeight_table; assumption.
  - intros Hlt Hnet. unfold IsProofOfStakeHeight.
    replace (h >=? POSStartHeight params) with false
      by (symmetry; rewrite Z.geb_leb; apply Z.leb_gt; lia).
    destruct NetworkIDString; [congruence | reflexivity ..].
Qed.

(** ** Properties of the proof verifier *)

(** C6: the verifier answers false whenever the decoded target is negative,
    zero, overflowing or above the PoW ceiling, whatever the hash; otherwise
    it answers false exactly when the hash is numerically greater than the
    target, so a hash equal to the target is accepted.  It is a total
    boolean function. *)
Theorem CheckProofOfWork_spec : forall hash nBits params target neg ovf,
  SetCompact nBits = (target, neg, ovf) ->
  (neg = true \/ target = 0 \/ ovf = true \/ target > powLimit params ->
   CheckProofOfWork hash nBits params = false)
  /\ (neg = false -> target <> 0 -> ovf = false ->
      target <= powLimit params ->
      (CheckProofOfWork hash nBits params = false <-> hash > target)
      /\ (hash = target -> CheckProofOfWork hash nBits params = true)).
Proof.
  intros hash nBits params target neg ovf Hdec.
  unfold CheckProofOfWork. rewrite Hdec. split.
  - intros [-> | [-> | [-> | Hgt]]].
    + reflexivity.
    + rewrite Bool.orb_true_r. reflexivity.
    + rewrite !Bool.orb_true_r. reflexivity.
    + replace (target >? powLimit params) with true
        by (symmetry; apply Z.gtb_lt; lia).
      rewrite !Bool.orb_true_r. reflexivity.
  - intros -> Hnz -> Hle.
    replace (target =? 0) with false by (symmetry; apply Z.eqb_neq; assumption).
    replace (target >? powLimit params) with false
      by (symmetry; rewrite Z.gtb_ltb; apply Z.ltb_ge; lia).
    cbn [orb]. split.
    + destruct (hash >? target) eqn:Eh.
      * apply Z.gtb_lt in Eh. split; [lia | reflexivity].
      * rewrite Z.gtb_ltb in Eh. apply Z.ltb_ge in Eh.
        split; [discriminate | lia].
    + intros ->. rewrite Z.gtb_ltb, Z.ltb_irrefl. reflexivity.
Qed.

(** ** Properties of the dispatcher *)

(** An [int] sum that stays in the range of [int] is the sum itself. *)
Lemma to_int32_small : forall z, - 2 ^ 31 <= z < 2 ^ 31 -> to_int32 z = z.
Proof.
  intros z Hz. unfold to_int32. rewrite Z.mod_small by lia. ring.
Qed.

(** At the largest [int] the sum [nHeight + 1] comes out as the smallest. *)
Lemma to_int32_wraps : to_int32 (2 ^ 31 - 1 + 1) = - 2 ^ 31.
Proof. reflexivity. Qed.

(** C1: for a previous block whose height is an [int] below the largest
    one (so that the new height, previous height plus one, is an [int]),
    the dispatcher resolves the algorithm in this order: previous height
    below the minimum-difficulty block count gives the PoW ceiling; else new
    height at or above the hybrid start gives Hybrid PoW or Hybrid PoS by
    the flag; else previous height at or above the averaged-window start
    gives the averaged window, with the type of the new height from the
    classifier; else previous height at or above the Midas start gives
    Midas; else the legacy algorithm.  Only the hybrid threshold is compared
    with the new block's height. *)
Theorem GetNextWorkRequired_dispatch : forall bLast anc params fHybridPow,
  - 2 ^ 31 <= nHeight bLast < 2 ^ 31 - 1 ->
  (nHeight bLast < nMinimumDifficultyBlocks params ->
   GetNextWorkRequired (bLast :: anc) params fHybridPow
   = Some (GetCompact (powLimit params)))
  /\ (nMinimumDifficultyBlocks params <= nHeight bLast ->
      POSPOWStartHeight params <= nHeight bLast + 1 ->
      GetNextWorkRequired (bLast :: anc) params fHybridPow
      = if fHybridPow then HybridPoWDarkGravityWave (bLast :: anc) params
        else HybridPoSPIVXDifficulty (bLast :: anc) params)
  /\ (nMinimumDifficultyBlocks params <= nHeight bLast ->
      nHeight bLast + 1 < POSPOWStartHeight params ->
      DGWDifficultyStartHeight params <= nHeight bLast ->
      GetNextWorkRequired (bLast :: anc) params fHybridPow
      = GetNextWorkRequiredPivx (bLast :: anc) params
          (IsProofOfStakeHeight (nHeight bLast + 1) params))
  /\ (nMinimumDifficultyBlocks params <= nHeight bLast ->
      nHeight bLast + 1 < POSPOWStartHeight params ->
      nHeight bLast < DGWDifficultyStartHeight params ->
      MidasStartHeight params <= nHeight bLast ->
      GetNextWorkRequired (bLast :: anc) params fHybridPow
      = GetNextWorkRequiredMidas (bLast :: anc) params
          (IsProofOfStakeHeight (nHeight bLast + 1) params))
  /\ (nMinimumDifficultyBlocks params <= nHeight bLast ->
      nHeight bLast + 1 < POSPOWStartHeight params ->
      nHeight bLast < DGWDifficultyStartHeight params ->
      nHeight bLast < MidasStartHeight params ->
      GetNextWorkRequired (bLast :: anc) params fHybridPow
      = GetNextWorkRequiredOrig (bLast :: anc) params
          (IsProofOfStakeHeight (nHeight bLast + 1) params)).
Proof.
  intros bLast anc params fHybridPow Hint. unfold GetNextWorkRequired.
  rewrite to_int32_small by lia.
  rewrite !Z.geb_leb.
  destruct (nHeight bLast <? nMinimumDifficultyBlocks params) eqn:E1;
    [apply Z.ltb_lt in E1 | apply Z.ltb_ge in E1];
  destruct (POSPOWStartHeight params <=? nHeight bLast + 1) eqn:E2;
    [apply Z.leb_le in E2 | apply Z.leb_gt in E2
    |apply Z.leb_le in E2 | apply Z.leb_gt in E2];
  destruct (DGWDifficultyStartHeight params <=? nHeight bLast) eqn:E3;
    try (apply Z.leb_le in E3); try (apply Z.leb_gt in E3);
  destruct (MidasStartHeight params <=? nHeight bLast) eqn:E4;
    try (apply Z.leb_le in E4); try (apply Z.leb_gt in E4);
  repeat split; intros; try reflexivity; lia.
Qed.

(** ** Properties of the rolling averages of Midas *)

Lemma avg_loop_intervals : forall todo off c t sums params,
  match c with
  | b :: _ :: _ => t = GetBlockTime b
  | _ => True
  end ->
  avg_loop todo off c t sums params
  = add_intervals off (recent_intervals todo c (nPosTargetSpacing params)) sums.
Proof.
  induction todo as [|todo IH]; intros off c t sums params Hinv.
  - reflexivity.
  - destruct sums as [[[s5 s7] s9] s17].
    destruct c as [|b [|p rest]].
    + simpl. rewrite IH by exact I.
      replace (t - (t - nPosTargetSpacing params))
        with (nPosTargetSpacing params) by ring.
      reflexivity.
    + simpl. rewrite IH by exact I.
      replace (t - (t - nPosTargetSpacing params))
        with (nPosTargetSpacing params) by ring.
      destruct todo; reflexivity.
    + subst t. simpl. rewrite IH; [reflexivity|].
      destruct rest; [exact I | reflexivity].
Qed.

Lemma recent_intervals_length : forall n c spacing,
  length (recent_intervals n c spacing) = n.
Proof.
  induction n as [|n IH]; intros c spacing; [reflexivity|].
  destruct c as [|b [|p rest]]; simpl; rewrite IH; reflexivity.
Qed.

Lemma recent_intervals_exhausted : forall n c spacing,
  (length (pprev c) = 0)%nat ->
  recent_intervals n c spacing = repeat spacing n.
Proof.
  induction n as [|n IH]; intros c spacing Hlen; [reflexivity|].
  destruct c as [|b [|p rest]]; simpl in *;
    try discriminate; rewrite IH; reflexivity.
Qed.

(** With [k] predecessors, the first [k] intervals are differences of block
    times and all later ones are the nominal spacing. *)
Lemma recent_intervals_padding : forall n c spacing,
  (length (pprev c) <= n)%nat ->
  skipn (length (pprev c)) (recent_intervals n c spacing)
  = repeat spacing (n - length (pprev c)).
Proof.
  induction n as [|n IH]; intros c spacing Hlen.
  - destruct (length (pprev c)); reflexivity.
  - destruct c as [|b [|p rest]].
    + simpl. rewrite recent_intervals_exhausted; reflexivity.
    + simpl. rewrite recent_intervals_exhausted; reflexivity.
    + change (length (pprev (b :: p :: rest)))
        with (S (length (pprev (p :: rest)))) in *.
      change (recent_intervals (S n) (b :: p :: rest) spacing)
        with ((GetBlockTime b - GetBlockTime p)
              :: recent_intervals n (p :: rest) spacing).
      rewrite skipn_cons. rewrite IH by lia. reflexivity.
Qed.

Lemma avgRecentTimestamps_intervals : forall c params,
  let l := recent_intervals 17 c (nPosTargetSpacing params) in
  avgRecentTimestamps c params
  = (Z.quot (sumZ (firstn 5 l)) 5, Z.quot (sumZ (firstn 7 l)) 7,
     Z.quot (sumZ (firstn 9 l)) 9, Z.quot (sumZ l) 17).
Proof.
  intros c params l. unfold avgRecentTimestamps.
  rewrite avg_loop_intervals by (destruct c as [|b [|p rest]]; exact I || reflexivity).
  fold l.
  pose proof (recent_intervals_length 17 c (nPosTargetSpacing params)) as Hlen.
  fold l in Hlen. clearbody l.
  do 17 (destruct l as [|? l]; [discriminate Hlen|]).
  destruct l; [|discriminate Hlen].
  cbn [add_intervals firstn sumZ fold_right Z.ltb Z.add Z.compare Pos.compare
       Pos.compare_cont Pos.add Pos.succ].
  simpl.
  repeat match goal with |- (_, _) = (_, _) => apply f_equal2 end;
    (f_equal; ring).
Qed.

Lemma avgRecentTimestamps_genesis : forall g params,
  avgRecentTimestamps [g] params
  = (nPosTargetSpacing params, nPosTargetSpacing params,
     nPosTargetSpacing params, nPosTargetSpacing params).
Proof.
  intros g params. rewrite avgRecentTimestamps_intervals.
  rewrite recent_intervals_exhausted by reflexivity.
  set (s := nPosTargetSpacing params).
  cbn [repeat firstn sumZ fold_right].
  repeat match goal with |- (_, _) = (_, _) => apply f_equal2 end;
    match goal with
    | |- Z.quot ?e ?k = s =>
      replace e with (s * k) by ring; apply Z.quot_mul; discriminate
    end.
Qed.

(** C10: when the previous block has fewer than 17 predecessors, the rolling
    averages are taken over the real intervals followed by one synthetic
    interval of exactly [nPosTargetSpacing] (the non-Midas spacing) for each
    missing predecessor; on a chain that is only the genesis block the four
    averages all equal that spacing. *)
Theorem avgRecentTimestamps_padding : forall c params,
  (length (pprev c) < 17)%nat ->
  (avgRecentTimestamps c params
   = (Z.quot (sumZ (firstn 5 (recent_intervals 17 c (nPosTargetSpacing params)))) 5,
      Z.quot (sumZ (firstn 7 (recent_intervals 17 c (nPosTargetSpacing params)))) 7,
      Z.quot (sumZ (firstn 9 (recent_intervals 17 c (nPosTargetSpacing params)))) 9,
      Z.quot (sumZ (recent_intervals 17 c (nPosTargetSpacing params))) 17))
  /\ skipn (length (pprev c))
           (recent_intervals 17 c (nPosTargetSpacing params))
     = repeat (nPosTargetSpacing params) (17 - length (pprev c))
  /\ (forall g, c = [g] ->
      avgRecentTimestamps c params
      = (nPosTargetSpacing params, nPosTargetSpacing params,
         nPosTargetSpacing params, nPosTargetSpacing params)).
Proof.
  intros c params Hlen. split; [|split].
  - apply avgRecentTimestamps_intervals.
  - apply recent_intervals_padding. lia.
  - intros g ->. apply avgRecentTimestamps_genesis.
Qed.

(** ** Midas at the neutral factor *)

Lemma midas_factor_neutral : forall d, 0 <= d ->
  midas_factor (d, d, d, d) d = Some 10000.
Proof.
  intros d Hd. unfold midas_factor.
  assert (Hfast : Z.quot (d * 2) 3 <= d).
  { rewrite Z.quot_div_nonneg by lia. apply Z.div_le_upper_bound; lia. }
  assert (Hslow : d <= Z.quot (d * 3) 2).
  { rewrite Z.quot_div_nonneg by lia. apply Z.div_le_lower_bound; lia. }
  replace (d <? Z.quot (d * 2) 3) with false
    by (symmetry; apply Z.ltb_ge; assumption).
  replace (d >? Z.quot (d * 3) 2) with false
    by (symmetry; rewrite Z.gtb_ltb; apply Z.ltb_ge; assumption).
  rewrite Z.gtb_ltb, Z.ltb_irrefl. reflexivity.
Qed.

(** C8 (as amended): in Midas, when the four rolling averages all equal the
    desired interval (and that interval is not negative), the factor is
    exactly neutral and the function returns the re-encoding of the decoded
    previous target; this is the previous block's packed target itself
    whenever that packed value is canonical, as every output of the encoder
    is. *)
Theorem Midas_neutral_reencodes : forall bLast anc params fProofOfStake d,
  midas_interval_desired bLast params = Some d ->
  0 <= d ->
  avgRecentTimestamps (bLast :: anc) params = (d, d, d, d) ->
  midas_factor (avgRecentTimestamps (bLast :: anc) params) d = Some 10000
  /\ GetNextWorkRequiredMidas (bLast :: anc) params fProofOfStake
     = Some (GetCompact (decode (nBits bLast)))
  /\ (canonical (nBits bLast) ->
      GetNextWorkRequiredMidas (bLast :: anc) params fProofOfStake
      = Some (nBits bLast))
  /\ (forall x, 0 <= x < 2 ^ 256 -> nBits bLast = GetCompact x ->
      GetNextWorkRequiredMidas (bLast :: anc) params fProofOfStake
      = Some (nBits bLast)).
Proof.
  intros bLast anc params fProofOfStake d Hd Hpos Havg.
  assert (Hf : midas_factor (avgRecentTimestamps (bLast :: anc) params) d
               = Some 10000)
    by (rewrite Havg; apply midas_factor_neutral; assumption).
  assert (Hr : GetNextWorkRequiredMidas (bLast :: anc) params fProofOfStake
               = Some (GetCompact (decode (nBits bLast)))).
  { unfold GetNextWorkRequiredMidas. rewrite Hd. cbn [bind].
    rewrite Hf. reflexivity. }
  split; [exact Hf|]. split; [exact Hr|]. split.
  - intros Hc. rewrite Hr. f_equal. exact Hc.
  - intros x Hx Hbits. rewrite Hr. f_equal. rewrite Hbits.
    apply GetCompact_canonical. assumption.
Qed.

(** ** Legacy algorithm at equilibrium *)

Lemma decode_range : forall c, 0 <= decode c < 2 ^ 256.
Proof.
  intros c. unfold decode, SetCompact. cbn [fst].
  destruct (Z.shiftr c 24 <=? 3) eqn:E.
  - apply Z.leb_le in E.
    assert (Hw : 0 <= Z.land c 8388607 < 2 ^ 23).
    { change 8388607 with (Z.ones 23). rewrite Z.land_ones by lia.
      apply Z.mod_pos_bound. lia. }
    rewrite Z.shiftr_div_pow2 by lia.
    assert (0 < 2 ^ (8 * (3 - Z.shiftr c 24)))
      by (apply Z.pow_pos_nonneg; lia).
    split; [apply Z.div_pos; lia|].
    apply Z.le_lt_trans with (Z.land c 8388607); [|lia].
    apply Z.div_le_upper_bound; [lia|]. nia.
  - apply Z.mod_pos_bound. reflexivity.
Qed.

(** C9 (as amended): in the legacy algorithm with retargeting enabled, when
    the two most recent same-type blocks are spaced by exactly the nominal 64
    seconds and 704 times the decoded previous target fits 256 bits, the
    smoothing step is the identity on the decoded target [T]; the function
    returns the encoding of [T] clamped to the ceiling, which is the previous
    packed target itself whenever that is canonical and [T] lies in
    (0, ceiling]. *)
Theorem Orig_equilibrium : forall pindexLast params fProofOfStake
    bPrev prev bPrevPrev rest,
  fPowNoRetargeting params = false ->
  skip_other_type pindexLast params fProofOfStake = bPrev :: prev ->
  skip_other_type prev params fProofOfStake = bPrevPrev :: rest ->
  GetBlockTime bPrev - GetBlockTime bPrevPrev = 64 ->
  decode (nBits bPrev) * 704 < 2 ^ 256 ->
  GetNextWorkRequiredOrig pindexLast params fProofOfStake
  = Some (GetCompact
            (if (decode (nBits bPrev) <=? 0)
                || (decode (nBits bPrev) >? orig_limit params fProofOfStake)
             then orig_limit params fProofOfStake
             else decode (nBits bPrev)))
  /\ (0 < decode (nBits bPrev) <= orig_limit params fProofOfStake ->
      canonical (nBits bPrev) ->
      GetNextWorkRequiredOrig pindexLast params fProofOfStake
      = Some (nBits bPrev)).
Proof.
  intros pindexLast params fProofOfStake bPrev prev bPrevPrev rest
         Hflag Hprev Hprevprev Hspacing Hfit.
  pose proof (decode_range (nBits bPrev)) as HT.
  assert (Hr : GetNextWorkRequiredOrig pindexLast params fProofOfStake
               = Some (GetCompact
                   (if (decode (nBits bPrev) <=? 0)
                       || (decode (nBits bPrev)
                           >? orig_limit params fProofOfStake)
                    then orig_limit params fProofOfStake
                    else decode (nBits bPrev)))).
  { unfold GetNextWorkRequiredOrig.
    rewrite Hflag, Hprev, Hprevprev, Hspacing.
    replace (if 64 <? 0 then 64
             else if fProofOfStake && (64 >? 64 * 10) then 64 * 10 else 64)
      with 64 by (destruct fProofOfStake; reflexivity).
    replace (((if fProofOfStake then 10 else 10) - 1) * 64 + 64 + 64)
      with 704 by (destruct fProofOfStake; reflexivity).
    replace (((if fProofOfStake then 10 else 10) + 1) * 64)
      with 704 by (destruct fProofOfStake; reflexivity).
    unfold mul32, Arith256.div, to_uint32, to_uint64, two256.
    change (704 mod 2 ^ 32) with 704. change (704 mod 2 ^ 64) with 704.
    rewrite Z.mod_small by lia. rewrite Z.div_mul by lia.
    reflexivity. }
  split; [exact Hr|].
  intros Hin Hc. rewrite Hr.
  replace (decode (nBits bPrev) <=? 0) with false
    by (symmetry; apply Z.leb_gt; lia).
  replace (decode (nBits bPrev) >? orig_limit params fProofOfStake) with false
    by (symmetry; rewrite Z.gtb_ltb; apply Z.ltb_ge; lia).
  cbn [orb]. f_equal. exact Hc.
Qed.

(** ** Retargeting disabled *)

(** C5 (as amended): when [fPowNoRetargeting] is set and a previous block
    exists, the legacy and the averaged-window algorithms return the previous
    block's packed target unchanged, and Hybrid PoS returns the packed target
    of the most recent stake block at or before the previous block, unless
    there is none above the hybrid start height, when it returns the PoS
    ceiling. *)
Theorem NoRetargeting_returns_previous : forall bLast anc params fProofOfStake,
  fPowNoRetargeting params = true ->
  GetNextWorkRequiredOrig (bLast :: anc) params fProofOfStake
  = Some (nBits bLast)
  /\ GetNextWorkRequiredPivx (bLast :: anc) params fProofOfStake
     = Some (nBits bLast)
  /\ HybridPoSPIVXDifficulty (bLast :: anc) params
     = match (if IsStaking bLast then bLast :: anc
              else GetHybridPrevIndex (bLast :: anc) true
                     (POSPOWStartHeight params)) with
       | [] => Some (GetCompact (posLimit params))
       | bStake :: _ =>
         if nHeight bStake <=? POSPOWStartHeight params
         then Some (GetCompact (posLimit params))
         else Some (nBits bStake)
       end.
Proof.
  intros bLast anc params fProofOfStake Hflag.
  unfold GetNextWorkRequiredOrig, GetNextWorkRequiredPivx,
    HybridPoSPIVXDifficulty.
  rewrite Hflag. repeat split.
Qed.

(** ** Results stay within the ceiling in force *)

Lemma Some_eq : forall (A : Type) (a b : A), Some a = Some b -> a = b.
Proof. intros A a b H. injection H. auto. Qed.

Ltac some_inv H := apply Some_eq in H; rewrite <- H; clear H.


Lemma add_nonneg : forall a b, 0 <= add a b.
Proof.
  intros a b. unfold add, two256. apply Z.mod_pos_bound. reflexivity.
Qed.

Lemma div_nonneg : forall a b q,
  Arith256.div a b = Some q -> 0 <= a -> 0 <= q.
Proof.
  intros a b q H Ha. unfold Arith256.div, to_uint64 in H.
  pose proof (Z.mod_pos_bound b (2 ^ 64) eq_refl) as Hb.
  destruct (b mod 2 ^ 64 =? 0) eqn:E; [discriminate|].
  apply Z.eqb_neq in E. some_inv H. apply Z.div_pos; lia.
Qed.

(** The clamp of the exponential algorithms: zero and anything above the
    limit are replaced by the limit. *)
Lemma clamp_positive_within : forall bnNew limit,
  0 < limit < 2 ^ 256 ->
  decodes_within 1
    (GetCompact (if (bnNew <=? 0) || (bnNew >? limit) then limit else bnNew))
    limit.
Proof.
  intros bnNew limit Hl.
  destruct (bnNew <=? 0) eqn:E0; cbn [orb].
  - pose proof (GetCompact_within limit limit ltac:(lia) ltac:(lia)) as H.
    replace (limit =? 0) with false in H by (symmetry; apply Z.eqb_neq; lia).
    exact H.
  - apply Z.leb_gt in E0. rewrite Z.gtb_ltb.
    destruct (limit <? bnNew) eqn:E1.
    + pose proof (GetCompact_within limit limit ltac:(lia) ltac:(lia)) as H.
      replace (limit =? 0) with false in H by (symmetry; apply Z.eqb_neq; lia).
      exact H.
    + apply Z.ltb_ge in E1.
      pose proof (GetCompact_within bnNew limit ltac:(lia) ltac:(lia)) as H.
      replace (bnNew =? 0) with false in H by (symmetry; apply Z.eqb_neq; lia).
      exact H.
Qed.


Lemma limit_within : forall limit limit',
  0 < limit < 2 ^ 256 -> limit <= limit' ->
  decodes_within 1 (GetCompact limit) limit'.
Proof.
  intros limit limit' Hl Hle.
  pose proof (GetCompact_within limit limit ltac:(lia) ltac:(lia)) as H.
  replace (limit =? 0) with false in H by (symmetry; apply Z.eqb_neq; lia).
  eapply decodes_within_weaken; [exact H | lia | lia].
Qed.


Lemma Orig_within : forall pindexLast params fProofOfStake r,
  0 < orig_limit params fProofOfStake < 2 ^ 256 ->
  fPowNoRetargeting params = false ->
  GetNextWorkRequiredOrig pindexLast params fProofOfStake = Some r ->
  decodes_within 1 r (orig_limit params fProofOfStake).
Proof.
  intros pindexLast params fProofOfStake r Hl Hflag H.
  unfold GetNextWorkRequiredOrig in H. rewrite Hflag in H.
  destruct (skip_other_type pindexLast params fProofOfStake)
    as [|bPrev prev].
  { some_inv H. apply limit_within; lia. }
  destruct (skip_other_type prev params fProofOfStake) as [|bPrevPrev rest].
  { some_inv H. apply limit_within; lia. }
  match type of H with
  | bind ?m _ = _ => destruct m as [bnNew|]; [|discriminate]
  end.
  cbn [bind] in H. some_inv H. apply clamp_positive_within. lia.
Qed.

Lemma HybridPoS_within : forall pindexLastIn params r,
  0 < posLimit params < 2 ^ 256 ->
  fPowNoRetargeting params = false ->
  HybridPoSPIVXDifficulty pindexLastIn params = Some r ->
  decodes_within 1 r (posLimit params).
Proof.
  intros pindexLastIn params r Hl Hflag H.
  unfold HybridPoSPIVXDifficulty in H.
  destruct pindexLastIn as [|bIn anc]; [discriminate|].
  cbv zeta in H.
  match type of H with
  | match ?t with _ => _ end = _ => destruct t as [|bLast rest]
  end.
  { some_inv H. apply limit_within; lia. }
  destruct (nHeight bLast <=? POSPOWStartHeight params).
  { some_inv H. apply limit_within; lia. }
  rewrite Hflag in H.
  destruct (nHeight bLast >? POSStartHeight params); [|discriminate].
  match type of H with
  | bind ?m _ = _ => destruct m as [bnNew|]; [|discriminate]
  end.
  cbn [bind] in H. some_inv H. apply clamp_positive_within. lia.
Qed.



(** The running average carried by the loop of Hybrid PoW is a 256-bit
    magnitude. *)
Lemma hybrid_window_avg : forall todo nCountBlocks pindex avg params p a,
  0 <= avg ->
  hybrid_window todo nCountBlocks pindex avg params = Some (inr (p, a)) ->
  0 <= a.
Proof.
  induction todo as [|todo IH]; intros nCountBlocks pindex avg params p a Ha H.
  - injection H as _ <-. assumption.
  - simpl in H. destruct pindex as [|b rest]; [discriminate|].
    match type of H with
    | bind ?m _ = _ => destruct m as [avg'|] eqn:Eavg; [|discriminate]
    end.
    cbn [bind] in H.
    assert (Havg' : 0 <= avg').
    { destruct (nCountBlocks =? 1).
      - injection Eavg as <-. apply decode_range.
      - eapply div_nonneg; [eassumption | apply add_nonneg]. }
    destruct (negb (nCountBlocks =? 24)).
    + match type of H with
      | match ?t with _ => _ end = _ => destruct t as [|b' rest']
      end; [discriminate|].
      destruct (nHeight b' <=? POSPOWStartHeight params); [discriminate|].
      eapply IH; eassumption.
    + eapply IH; eassumption.
Qed.



(** The average carried by the window loop of the single-track era is a
    256-bit magnitude. *)
Lemma pivx_window_avg : forall BlockReading i st st',
  0 <= PastDifficultyAverage st ->
  pivx_window BlockReading i st = Some st' ->
  0 <= PastDifficultyAverage st'.
Proof.
  induction BlockReading as [|b prev IH]; intros i st st' Hst H.
  - some_inv H. assumption.
  - simpl in H.
    destruct (negb (nHeight b >? 0)); [injection H as <-; assumption|].
    destruct (i >? 24); [injection H as <-; assumption|].
    match type of H with
    | bind ?m _ = _ => destruct m as [[avg avgPrev]|] eqn:Eavg; [|discriminate]
    end.
    cbn [bind fst snd] in H.
    assert (Havg : 0 <= avg).
    { destruct (CountBlocks st + 1 <=? 24).
      - match type of Eavg with
        | bind ?m _ = _ => destruct m as [a|] eqn:Ea; [|discriminate]
        end.
        cbn [bind] in Eavg. injection Eavg as <- _.
        destruct (CountBlocks st + 1 =? 1).
        + injection Ea as <-. apply decode_range.
        + eapply div_nonneg; [eassumption | apply add_nonneg].
      - injection Eavg as <- _. assumption. }
    destruct prev as [|p rest].
    + some_inv H. assumption.
    + eapply IH; [|eassumption]. assumption.
Qed.

Lemma track_limit_ok : forall params fProofOfStake,
  limits_ok params -> 0 < track_limit params fProofOfStake < 2 ^ 256.
Proof.
  intros params fProofOfStake (Hpow & Hpos & _).
  unfold track_limit. destruct fProofOfStake; assumption.
Qed.




(** ** Further properties of the hybrid walker *)

(** X1: raising the floor of the hybrid walker never changes which ancestor
    it finds: whenever the walk with the higher floor finds a block, the
    walk with any lower floor finds the same block. *)
Theorem GetHybridPrevIndex_floor : forall pindex fPos lo hi,
  lo <= hi ->
  GetHybridPrevIndex pindex fPos hi <> [] ->
  GetHybridPrevIndex pindex fPos lo = GetHybridPrevIndex pindex fPos hi.
Proof.
  induction pindex as [|b prev IH]; intros fPos lo hi Hle Hfound.
  - reflexivity.
  - destruct prev as [|p rest]; [reflexivity|].
    change (GetHybridPrevIndex (b :: p :: rest) fPos hi)
      with (if nHeight p <? hi then []
            else if Bool.eqb (IsStaking p) fPos then p :: rest
                 else GetHybridPrevIndex (p :: rest) fPos hi) in *.
    change (GetHybridPrevIndex (b :: p :: rest) fPos lo)
      with (if nHeight p <? lo then []
            else if Bool.eqb (IsStaking p) fPos then p :: rest
                 else GetHybridPrevIndex (p :: rest) fPos lo).
    destruct (nHeight p <? hi) eqn:Ehi; [contradiction Hfound; reflexivity|].
    apply Z.ltb_ge in Ehi.
    replace (nHeight p <? lo) with false by (symmetry; apply Z.ltb_ge; lia).
    destruct (Bool.eqb (IsStaking p) fPos); [reflexivity|].
    apply IH; assumption.
Qed.

(** ** Further properties of the proof verifier *)

(** X2: a hash that the verifier accepts is at most the PoW ceiling, and
    every smaller hash is accepted against the same packed target. *)
Theorem CheckProofOfWork_downward : forall hash hash' nBits params,
  CheckProofOfWork hash nBits params = true ->
  hash <= powLimit params
  /\ (hash' <= hash -> CheckProofOfWork hash' nBits params = true).
Proof.
  intros hash hash' nBits params H. unfold CheckProofOfWork in *.
  destruct (SetCompact nBits) as [[target neg] ovf].
  destruct (neg || (target =? 0) || ovf || (target >? powLimit params))
    eqn:Er; [discriminate|].
  apply Bool.orb_false_iff in Er. destruct Er as [_ Hlim].
  rewrite Z.gtb_ltb in Hlim. apply Z.ltb_ge in Hlim.
  destruct (hash >? target) eqn:Eh; [discriminate|].
  rewrite Z.gtb_ltb in Eh. apply Z.ltb_ge in Eh.
  split; [lia|]. intros Hle.
  replace (hash' >? target) with false; [reflexivity|].
  symmetry. rewrite Z.gtb_ltb. apply Z.ltb_ge. lia.
Qed.

(** The verifier on a packed value that decodes without flags into
    [[1, powLimit]]. *)
Lemma CheckProofOfWork_decoded : forall hash r params v,
  SetCompact r = (v, false, false) -> 1 <= v <= powLimit params ->
  CheckProofOfWork hash r params = (hash <=? v).
Proof.
  intros hash r params v Hdec Hv. unfold CheckProofOfWork. rewrite Hdec.
  replace (v =? 0) with false by (symmetry; apply Z.eqb_neq; lia).
  replace (v >? powLimit params) with false
    by (symmetry; rewrite Z.gtb_ltb; apply Z.ltb_ge; lia).
  cbn [orb]. rewrite Z.gtb_ltb.
  destruct (v <? hash) eqn:E.
  - apply Z.ltb_lt in E. symmetry. apply Z.leb_gt. lia.
  - apply Z.ltb_ge in E. symmetry. apply Z.leb_le. lia.
Qed.

(** X3: the packed encoding of any magnitude in (0, powLimit] is a target
    the verifier accepts as in range: the zero hash passes against it, and a
    hash that passes is at most the encoded magnitude. *)
Theorem CheckProofOfWork_encoded : forall hash x params,
  0 < x <= powLimit params -> powLimit params < 2 ^ 256 ->
  CheckProofOfWork 0 (GetCompact x) params = true
  /\ (CheckProofOfWork hash (GetCompact x) params = true -> hash <= x).
Proof.
  intros hash x params Hx Hl.
  destruct (GetCompact_decode x ltac:(lia)) as (v & Hv & Hr & _).
  split.
  - rewrite (CheckProofOfWork_decoded 0 _ params v Hv) by lia.
    apply Z.leb_le. lia.
  - rewrite (CheckProofOfWork_decoded hash _ params v Hv) by lia.
    intros H. apply Z.leb_le in H. lia.
Qed.

(** X4: with retargeting enabled, every result of the legacy algorithm whose
    limit is within the PoW ceiling, and every result of Hybrid PoS when the
    PoS ceiling is within the PoW ceiling, passes the range test of the
    verifier: the zero hash is accepted against it. *)
Theorem exponential_results_verifiable :
  forall pindexLast params fProofOfStake r,
  limits_ok params ->
  fPowNoRetargeting params = false ->
  (orig_limit params fProofOfStake <= powLimit params ->
   GetNextWorkRequiredOrig pindexLast params fProofOfStake = Some r ->
   CheckProofOfWork 0 r params = true)
  /\ (posLimit params <= powLimit params ->
      HybridPoSPIVXDifficulty pindexLast params = Some r ->
      CheckProofOfWork 0 r params = true).
Proof.
  intros pindexLast params fProofOfStake r Hok Hflag.
  pose proof Hok as (Hpow & Hpos & _).
  split; intros Hle H.
  - assert (Hl : 0 < orig_limit params fProofOfStake < 2 ^ 256).
    { unfold orig_limit in *.
      destruct (fProofOfStake && Network_eqb NetworkIDString MAIN);
        [lia | assumption]. }
    destruct (Orig_within _ _ _ _ Hl Hflag H) as (v & Hv & Hr).
    rewrite (CheckProofOfWork_decoded 0 r params v Hv) by lia.
    apply Z.leb_le. lia.
  - destruct (HybridPoS_within _ _ _ Hpos Hflag H) as (v & Hv & Hr).
    rewrite (CheckProofOfWork_decoded 0 r params v Hv) by lia.
    apply Z.leb_le. lia.
Qed.

(** ** Further properties of the legacy algorithm *)

(** X5: the type-skipping scan of the legacy algorithm, on a chain with at
    least one block, stops at a block of the chain: every block it steps
    over is of the other type, and the block it stops at is of the requested
    type unless it is the oldest block, which is accepted whatever its type.
    The scan never yields null. *)
Theorem skip_other_type_stops : forall pindex params fProofOfStake,
  pindex <> [] ->
  exists skipped b rest,
    pindex = skipped ++ b :: rest
    /\ skip_other_type pindex params fProofOfStake = b :: rest
    /\ (forall q, In q skipped ->
          IsProofOfStakeHeight (nHeight q) params <> fProofOfStake)
    /\ (IsProofOfStakeHeight (nHeight b) params = fProofOfStake \/ rest = []).
Proof.
  induction pindex as [|b prev IH]; intros params fProofOfStake Hne.
  - contradiction Hne. reflexivity.
  - destruct prev as [|p rest'].
    + exists [], b, []. repeat split; [intros q [] | right; reflexivity].
    + change (skip_other_type (b :: p :: rest') params fProofOfStake)
        with (if negb (Bool.eqb (IsProofOfStakeHeight (nHeight b) params)
                         fProofOfStake)
              then skip_other_type (p :: rest') params fProofOfStake
              else b :: p :: rest').
      destruct (Bool.eqb (IsProofOfStakeHeight (nHeight b) params)
                  fProofOfStake) eqn:Et; cbn [negb].
      * apply Bool.eqb_prop in Et. exists [], b, (p :: rest').
        repeat split; [intros q [] | left; exact Et].
      * apply Bool.eqb_false_iff in Et.
        destruct (IH params fProofOfStake ltac:(discriminate))
          as (skipped & b' & rest & Hc & Hr & Hsk & Hb).
        exists (b :: skipped), b', rest.
        split; [cbn [app]; rewrite <- Hc; reflexivity|].
        split; [exact Hr|]. split; [|exact Hb].
        intros q [<- | Hq]; [exact Et | apply Hsk; exact Hq].
Qed.

Lemma skip_other_type_all_other : forall pindex params fProofOfStake,
  (forall q, In q pindex ->
     IsProofOfStakeHeight (nHeight q) params <> fProofOfStake) ->
  (length (skip_other_type pindex params fProofOfStake) <= 1)%nat.
Proof.
  induction pindex as [|b prev IH]; intros params fProofOfStake Hall.
  - simpl. lia.
  - destruct prev as [|p rest']; [simpl; lia|].
    change (skip_other_type (b :: p :: rest') params fProofOfStake)
      with (if negb (Bool.eqb (IsProofOfStakeHeight (nHeight b) params)
                       fProofOfStake)
            then skip_other_type (p :: rest') params fProofOfStake
            else b :: p :: rest').
    destruct (Bool.eqb (IsProofOfStakeHeight (nHeight b) params)
                fProofOfStake) eqn:Et; cbn [negb].
    + apply Bool.eqb_prop in Et.
      contradiction (Hall b (or_introl eq_refl) Et).
    + apply IH. intros q Hq. apply Hall. right. exact Hq.
Qed.

(** X6: with retargeting enabled the legacy algorithm returns its packed
    limit when the chain has at most one block, and when no block of the
    chain is of the type to be produced (the first block of a type starts at
    the limit). *)
Theorem Orig_first_of_type : forall pindexLast params fProofOfStake,
  fPowNoRetargeting params = false ->
  (length pindexLast <= 1)%nat
  \/ (forall q, In q pindexLast ->
        IsProofOfStakeHeight (nHeight q) params <> fProofOfStake) ->
  GetNextWorkRequiredOrig pindexLast params fProofOfStake
  = Some (GetCompact (orig_limit params fProofOfStake)).
Proof.
  intros pindexLast params fProofOfStake Hflag Hcase.
  assert (Hlen : (length (skip_other_type pindexLast params fProofOfStake)
                  <= 1)%nat).
  { destruct Hcase as [Hshort | Hall].
    - destruct pindexLast as [|b [|p rest]]; simpl in *; lia.
    - apply skip_other_type_all_other. exact Hall. }
  unfold GetNextWorkRequiredOrig. rewrite Hflag.
  destruct (skip_other_type pindexLast params fProofOfStake)
    as [|bPrev [|p rest]]; [reflexivity | reflexivity | simpl in Hlen; lia].
Qed.

(** X7: in the legacy algorithm with retargeting enabled, a most recent
    same-type block stamped before its same-type predecessor is treated as
    spaced by the nominal 64 seconds: when 704 times the decoded previous
    target fits 256 bits, the step is the identity on the decoded target and
    the result is its encoding clamped to the limit. *)
Theorem Orig_backdated : forall pindexLast params fProofOfStake
    bPrev prev bPrevPrev rest,
  fPowNoRetargeting params = false ->
  skip_other_type pindexLast params fProofOfStake = bPrev :: prev ->
  skip_other_type prev params fProofOfStake = bPrevPrev :: rest ->
  GetBlockTime bPrev < GetBlockTime bPrevPrev ->
  decode (nBits bPrev) * 704 < 2 ^ 256 ->
  GetNextWorkRequiredOrig pindexLast params fProofOfStake
  = Some (GetCompact
            (if (decode (nBits bPrev) <=? 0)
                || (decode (nBits bPrev) >? orig_limit params fProofOfStake)
             then orig_limit params fProofOfStake
             else decode (nBits bPrev))).
Proof.
  intros pindexLast params fProofOfStake bPrev prev bPrevPrev rest
         Hflag Hprev Hprevprev Hback Hfit.
  pose proof (decode_range (nBits bPrev)) as HT.
  unfold GetNextWorkRequiredOrig.
  rewrite Hflag, Hprev, Hprevprev.
  replace (GetBlockTime bPrev - GetBlockTime bPrevPrev <? 0) with true
    by (symmetry; apply Z.ltb_lt; lia).
  replace (((if fProofOfStake then 10 else 10) - 1) * 64 + 64 + 64)
    with 704 by (destruct fProofOfStake; reflexivity).
  replace (((if fProofOfStake then 10 else 10) + 1) * 64)
    with 704 by (destruct fProofOfStake; reflexivity).
  unfold mul32, Arith256.div, to_uint32, to_uint64, two256.
  change (704 mod 2 ^ 32) with 704. change (704 mod 2 ^ 64) with 704.
  rewrite Z.mod_small by lia. rewrite Z.div_mul by lia.
  reflexivity.
Qed.

(** ** Further properties of Midas *)

Lemma midas_factor_range : forall avgs d f,
  midas_factor avgs d = Some f -> 5000 <= f <= 20000.
Proof.
  intros [[[a5 a7] a9] a17] d f H. unfold midas_factor in H.
  match type of H with
  | bind ?m _ = _ => destruct m as [f0|]; [|discriminate]
  end.
  cbn [bind] in H. apply Some_eq in H. subst f.
  destruct (f0 >? 20000) eqn:E1.
  - reflexivity || (cbn; lia).
  - rewrite Z.gtb_ltb in E1. apply Z.ltb_ge in E1.
    destruct (f0 <? 5000) eqn:E2;
      [lia | apply Z.ltb_ge in E2; lia].
Qed.

(** X8: Midas limits one step to doubling.  Whatever the timestamps, the
    difficulty factor it applies lies in [5000, 20000], and any packed
    target it returns for a present previous block decodes without flags to
    at most twice the decoded previous target. *)
Theorem Midas_at_most_doubles : forall bLast anc params fProofOfStake r,
  limits_ok params ->
  GetNextWorkRequiredMidas (bLast :: anc) params fProofOfStake = Some r ->
  (forall d f,
     midas_factor (avgRecentTimestamps (bLast :: anc) params) d = Some f ->
     5000 <= f <= 20000)
  /\ exists v, SetCompact r = (v, false, false)
               /\ 0 <= v <= 2 * decode (nBits bLast).
Proof.
  intros bLast anc params fProofOfStake r Hok H.
  split; [intros d f Hf; eapply midas_factor_range; eassumption|].
  pose proof (track_limit_ok params fProofOfStake Hok) as Htrack.
  pose proof (decode_range (nBits bLast)) as Hold.
  unfold GetNextWorkRequiredMidas in H. cbv zeta in H.
  fold (track_limit params fProofOfStake) in H.
  destruct (midas_interval_desired bLast params) as [d|]; [|discriminate].
  cbn [bind] in H.
  destruct (midas_factor (avgRecentTimestamps (bLast :: anc) params) d)
    as [f|] eqn:Ef; [|discriminate].
  cbn [bind] in H. apply midas_factor_range in Ef.
  destruct (f =? 10000).
  - some_inv H.
    destruct (GetCompact_within (decode (nBits bLast)) (decode (nBits bLast))
                ltac:(lia) ltac:(lia)) as (v & Hv & Hr).
    exists v. split; [exact Hv|]. destruct (decode (nBits bLast) =? 0); lia.
  - unfold Arith256.div, to_uint64 in H.
    rewrite (Z.mod_small f) in H by lia.
    replace (f =? 0) with false in H by (symmetry; apply Z.eqb_neq; lia).
    cbn [bind] in H. some_inv H.
    set (q := decode (nBits bLast) / f).
    assert (Hq : 0 <= q) by (apply Z.div_pos; lia).
    assert (Hq2 : q * 10000 <= 2 * decode (nBits bLast)).
    { assert (q * f <= decode (nBits bLast))
        by (unfold q; rewrite Z.mul_comm; apply Z.mul_div_le; lia).
      assert (q * 5000 <= q * f) by (apply Z.mul_le_mono_nonneg_l; lia).
      lia. }
    assert (Hm : 0 <= mul32 q 10000 <= q * 10000).
    { unfold mul32, to_uint32, two256.
      change (10000 mod 2 ^ 32) with 10000. split.
      - apply Z.mod_pos_bound. reflexivity.
      - apply Z.mod_le; [lia | reflexivity]. }
    assert (Hm' : mul32 q 10000 < 2 ^ 256)
      by (unfold mul32, two256; apply Z.mod_pos_bound; reflexivity).
    set (c := if mul32 q 10000 >? track_limit params fProofOfStake
              then track_limit params fProofOfStake else mul32 q 10000).
    assert (Hc : 0 <= c <= mul32 q 10000 /\ c < 2 ^ 256).
    { unfold c. rewrite Z.gtb_ltb.
      destruct (track_limit params fProofOfStake <? mul32 q 10000) eqn:E;
        [apply Z.ltb_lt in E | apply Z.ltb_ge in E]; lia. }
    destruct (GetCompact_within c c ltac:(lia) ltac:(lia)) as (v & Hv & Hr).
    exists v. split; [exact Hv|]. destruct (c =? 0); lia.
Qed.

Lemma quot_nonneg_div : forall a b, 0 <= a -> 0 < b -> Z.quot a b = a / b.
Proof. intros a b Ha Hb. apply Z.quot_div_nonneg; lia. Qed.

(** The desired interval of Midas for positive parameters. *)
Lemma midas_interval_desired_positive : forall bLast params,
  2 <= nPosTargetSpacingMidas params ->
  1 <= nPosTargetTimespanMidas params ->
  exists d, midas_interval_desired bLast params = Some d /\ 1 <= d.
Proof.
  intros bLast params Hsp Hts. unfold midas_interval_desired.
  set (sp := nPosTargetSpacingMidas params) in *.
  set (ts := nPosTargetTimespanMidas params) in *.
  set (now := GetBlockTime bLast).
  set (bht := GenesisBlock_nTime + nHeight bLast * sp).
  assert (Hfast : 1 <= Z.quot (sp * 9) 10).
  { rewrite quot_nonneg_div by lia. apply Z.div_le_lower_bound; lia. }
  assert (Hslow : sp <= Z.quot (sp * 11) 10).
  { rewrite quot_nonneg_div by lia. apply Z.div_le_lower_bound; lia. }
  cbv zeta.
  destruct ((now <? bht + ts) && (now >? bht)) eqn:E1.
  - apply Bool.andb_true_iff in E1. destruct E1 as [E1 E1'].
    apply Z.ltb_lt in E1. rewrite Z.gtb_ltb in E1'. apply Z.ltb_lt in E1'.
    unfold div64.
    replace (sp =? 0) with false by (symmetry; apply Z.eqb_neq; lia).
    eexists. split; [reflexivity|].
    assert (Hn : 1 * sp <= (ts - (now - bht)) * sp
                         + (now - bht) * Z.quot (sp * 9) 10).
    { assert (1 * sp <= (ts - (now - bht)) * sp)
        by (apply Z.mul_le_mono_nonneg_r; lia).
      assert (0 <= (now - bht) * Z.quot (sp * 9) 10)
        by (apply Z.mul_nonneg_nonneg; lia).
      lia. }
    rewrite quot_nonneg_div by lia.
    apply Z.div_le_lower_bound; lia.
  - destruct ((now + ts >? bht) && (now <? bht)) eqn:E2.
    + apply Bool.andb_true_iff in E2. destruct E2 as [E2 E2'].
      rewrite Z.gtb_ltb in E2. apply Z.ltb_lt in E2. apply Z.ltb_lt in E2'.
      unfold div64.
      replace (ts =? 0) with false by (symmetry; apply Z.eqb_neq; lia).
      eexists. split; [reflexivity|].
      assert (Hn : ts * 1 <= (ts - (bht - now)) * sp
                           + (bht - now) * Z.quot (sp * 11) 10).
      { assert ((ts - (bht - now)) * 1 <= (ts - (bht - now)) * sp)
          by (apply Z.mul_le_mono_nonneg_l; lia).
        assert ((bht - now) * 1 <= (bht - now) * Z.quot (sp * 11) 10)
          by (apply Z.mul_le_mono_nonneg_l; lia).
        lia. }
      rewrite quot_nonneg_div by lia.
      apply Z.div_le_lower_bound; lia.
    + destruct (now <? bht); eexists; (split; [reflexivity | lia]).
Qed.


Lemma sum_recent_intervals : forall k n c spacing,
  (k <= n)%nat -> (k < length c)%nat ->
  sumZ (firstn k (recent_intervals n c spacing))
  = GetBlockTime (block_at 0 c) - GetBlockTime (block_at k c).
Proof.
  induction k as [|k IH]; intros n c spacing Hn Hlen.
  - destruct c as [|b rest]; [simpl in Hlen; lia|].
    cbn [firstn sumZ fold_right]. unfold block_at. cbn [nth]. ring.
  - destruct n as [|n]; [lia|].
    destruct c as [|b [|p rest]]; [simpl in Hlen; lia | simpl in Hlen; lia|].
    change (recent_intervals (S n) (b :: p :: rest) spacing)
      with ((GetBlockTime b - GetBlockTime p)
            :: recent_intervals n (p :: rest) spacing).
    cbn [firstn]. change (sumZ (?x :: ?l)) with (x + sumZ l).
    rewrite IH by (simpl in *; lia).
    unfold block_at. cbn [nth]. ring.
Qed.

(** X10: when the previous block has at least 17 predecessors, each rolling
    average of Midas depends only on the two timestamps at the ends of its
    window: it is the truncated quotient of the time from the block 5, 7, 9
    or 17 links back to the previous block by the window length. *)
Theorem avgRecentTimestamps_telescopes : forall c params,
  (17 < length c)%nat ->
  avgRecentTimestamps c params
  = (Z.quot (GetBlockTime (block_at 0 c) - GetBlockTime (block_at 5 c)) 5,
     Z.quot (GetBlockTime (block_at 0 c) - GetBlockTime (block_at 7 c)) 7,
     Z.quot (GetBlockTime (block_at 0 c) - GetBlockTime (block_at 9 c)) 9,
     Z.quot (GetBlockTime (block_at 0 c) - GetBlockTime (block_at 17 c)) 17).
Proof.
  intros c params Hlen. rewrite avgRecentTimestamps_intervals.
  rewrite <- (firstn_all (recent_intervals 17 c (nPosTargetSpacing params)))
    at 4.
  rewrite recent_intervals_length.
  rewrite !sum_recent_intervals by lia. reflexivity.
Qed.

Lemma recent_intervals_nonneg : forall n c spacing,
  times_ascend c -> 0 <= spacing ->
  0 <= sumZ (recent_intervals n c spacing).
Proof.
  induction n as [|n IH]; intros c spacing Hasc Hsp.
  - simpl. lia.
  - destruct c as [|b [|p rest]].
    + change (recent_intervals (S n) [] spacing)
        with (spacing :: recent_intervals n [] spacing).
      change (sumZ (?x :: ?l)) with (x + sumZ l).
      specialize (IH [] spacing I Hsp). lia.
    + change (recent_intervals (S n) [b] spacing)
        with (spacing :: recent_intervals n [] spacing).
      change (sumZ (?x :: ?l)) with (x + sumZ l).
      specialize (IH [] spacing I Hsp). lia.
    + change (recent_intervals (S n) (b :: p :: rest) spacing)
        with ((GetBlockTime b - GetBlockTime p)
              :: recent_intervals n (p :: rest) spacing).
      change (sumZ (?x :: ?l)) with (x + sumZ l).
      destruct Hasc as [Hle Hasc].
      specialize (IH (p :: rest) spacing Hasc Hsp). lia.
Qed.

(** Midas on a chain of typed blocks with ascending timestamps, for
    spacings that keep the [int64_t] values of the source in range. *)
Lemma Midas_returns : forall bLast anc params fProofOfStake,
  2 <= nPosTargetSpacingMidas params <= 2 ^ 30 ->
  1 <= nPosTargetTimespanMidas params <= 2 ^ 30 ->
  0 <= nPosTargetSpacing params ->
  18 * nPosTargetSpacing params < 2 ^ 63 ->
  is_uint32 GenesisBlock_nTime ->
  chain_typed (bLast :: anc) ->
  times_ascend (bLast :: anc) ->
  exists r,
    GetNextWorkRequiredMidas (bLast :: anc) params fProofOfStake = Some r.
Proof.
  intros bLast anc params fProofOfStake [Hsp _] [Hts _] Hnom _ _ _ Hasc.
  destruct (midas_interval_desired_positive bLast params Hsp Hts)
    as (d & Hd & Hd1).
  assert (Hf : exists f,
             midas_factor (avgRecentTimestamps (bLast :: anc) params) d
             = Some f).
  { rewrite avgRecentTimestamps_intervals.
    set (l := recent_intervals 17 (bLast :: anc) (nPosTargetSpacing params)).
    assert (H17 : 0 <= Z.quot (sumZ l) 17).
    { pose proof (recent_intervals_nonneg 17 (bLast :: anc)
                    (nPosTargetSpacing params) Hasc Hnom) as Hs.
      fold l in Hs. rewrite quot_nonneg_div by lia.
      apply Z.div_pos; lia. }
    unfold midas_factor. unfold div64.
    replace (Z.quot (sumZ l) 17 + 5 * d =? 0) with false
      by (symmetry; apply Z.eqb_neq; lia).
    repeat match goal with
           | |- context [if ?c then _ else _] => destruct c
           end; cbn [bind]; eexists; reflexivity. }
  destruct Hf as (f & Hf).
  pose proof (midas_factor_range _ _ _ Hf) as Hr.
  unfold GetNextWorkRequiredMidas. rewrite Hd. cbn [bind]. rewrite Hf.
  cbn [bind]. destruct (f =? 10000); [eexists; reflexivity|].
  unfold Arith256.div, to_uint64. rewrite (Z.mod_small f) by lia.
  replace (f =? 0) with false by (symmetry; apply Z.eqb_neq; lia).
  cbn [bind]. eexists. reflexivity.
Qed.

(** X11: Midas returns a packed target, never dividing by zero, on every
    chain of typed blocks (heights in [int], timestamps and packed targets
    in [uint32_t]) whose timestamps do not decrease from a block to its
    successor, for a 32-bit genesis timestamp, a Midas spacing from 2 to
    [2^30], a Midas timespan from 1 to [2^30] and a non-negative nominal
    spacing whose 18-fold is below [2^63].  Under these bounds no
    [int64_t] value of the source overflows: the schedule
    [genesis + nHeight * spacing] is below [2^62] in magnitude, the two
    products of the desired interval are below [2^61] each, and the sums of
    17 intervals, each a difference of 32-bit timestamps or the nominal
    spacing, are below [2^63]. *)
Theorem Midas_defined : forall bLast anc params fProofOfStake,
  2 <= nPosTargetSpacingMidas params <= 2 ^ 30 ->
  1 <= nPosTargetTimespanMidas params <= 2 ^ 30 ->
  0 <= nPosTargetSpacing params ->
  18 * nPosTargetSpacing params < 2 ^ 63 ->
  is_uint32 GenesisBlock_nTime ->
  chain_typed (bLast :: anc) ->
  times_ascend (bLast :: anc) ->
  exists r,
    GetNextWorkRequiredMidas (bLast :: anc) params fProofOfStake = Some r.
Proof. exact Midas_returns. Qed.

(** ** Further properties of the hybrid algorithms *)

(** Hybrid PoS under the usual order of the start heights, on a chain of
    typed blocks, for a spacing that keeps the [int64_t] values of the
    source in range. *)
Lemma HybridPoS_returns : forall bIn anc params,
  POSStartHeight params <= POSPOWStartHeight params ->
  0 < nHybridPosTargetSpacing params ->
  41 * nHybridPosTargetSpacing params < 2 ^ 63 ->
  chain_typed (bIn :: anc) ->
  exists r, HybridPoSPIVXDifficulty (bIn :: anc) params = Some r.
Proof.
  intros bIn anc params Hord Hsp0 Hsp1 _.
  assert (Hsp : 0 < 41 * nHybridPosTargetSpacing params < 2 ^ 64) by lia.
  unfold HybridPoSPIVXDifficulty.
  cbv zeta.
  match goal with
  | |- exists _, match ?t with _ => _ end = _ => destruct t as [|bLast rest]
  end; [eexists; reflexivity|].
  destruct (nHeight bLast <=? POSPOWStartHeight params) eqn:Eh;
    [eexists; reflexivity|].
  apply Z.leb_gt in Eh.
  destruct (fPowNoRetargeting params); [eexists; reflexivity|].
  replace (nHeight bLast >? POSStartHeight params) with true
    by (symmetry; rewrite Z.gtb_ltb; apply Z.ltb_lt; lia).
  unfold Arith256.div, to_uint64.
  replace ((40 + 1) * nHybridPosTargetSpacing params)
    with (41 * nHybridPosTargetSpacing params) by ring.
  rewrite (Z.mod_small (41 * nHybridPosTargetSpacing params)) by lia.
  replace (41 * nHybridPosTargetSpacing params =? 0) with false
    by (symmetry; apply Z.eqb_neq; lia).
  cbn [bind]. eexists. reflexivity.
Qed.

(** X12: with the PoS start height at or below the hybrid start height and
    a positive hybrid PoS spacing whose 41-fold is below [2^63], Hybrid PoS
    returns a packed target for every present previous block of a chain of
    typed blocks: control never reaches the end of the function and no
    division is by zero.  Under these bounds no [int64_t] value of the
    source overflows: the products are 40, 39 and 41 spacings, and the
    multiplier adds twice a difference of 32-bit timestamps to 39
    spacings. *)
Theorem HybridPoS_defined : forall bIn anc params,
  POSStartHeight params <= POSPOWStartHeight params ->
  0 < nHybridPosTargetSpacing params ->
  41 * nHybridPosTargetSpacing params < 2 ^ 63 ->
  chain_typed (bIn :: anc) ->
  exists r, HybridPoSPIVXDifficulty (bIn :: anc) params = Some r.
Proof. exact HybridPoS_returns. Qed.

Lemma hybrid_window_exhausts : forall todo n pindex avg params k,
  pindex <> [] -> 1 <= n -> n + Z.of_nat todo = 25 ->
  (1 <= k)%nat -> (k < todo)%nat ->
  walk_exhausted (hybrid_steps k pindex (POSPOWStartHeight params)) params ->
  hybrid_window todo n pindex avg params
  = Some (inl (GetCompact (hybridPowLimit params))).
Proof.
  induction todo as [|todo IH]; intros n pindex avg params k Hne Hn Hsum Hk1
    Hk Hex; [lia|].
  destruct pindex as [|b rest]; [contradiction Hne; reflexivity|].
  cbn [hybrid_window].
  assert (Hdiv : exists avg',
             (if n =? 1 then Some (decode (nBits b))
              else Arith256.div (add (mul32 avg n) (decode (nBits b)))
                     (n + 1)) = Some avg').
  { destruct (n =? 1); [eexists; reflexivity|].
    unfold Arith256.div, to_uint64. rewrite (Z.mod_small (n + 1)) by lia.
    replace (n + 1 =? 0) with false by (symmetry; apply Z.eqb_neq; lia).
    eexists. reflexivity. }
  destruct Hdiv as (avg' & ->). cbn [bind].
  replace (n =? 24) with false by (symmetry; apply Z.eqb_neq; lia).
  cbn [negb].
  destruct k as [|k]; [lia|]. cbn [hybrid_steps] in Hex.
  destruct (GetHybridPrevIndex (b :: rest) false (POSPOWStartHeight params))
    as [|b' rest'] eqn:Estep; [reflexivity|].
  destruct (nHeight b' <=? POSPOWStartHeight params) eqn:Eh; [reflexivity|].
  apply Z.leb_gt in Eh.
  destruct k as [|k].
  - cbn [hybrid_steps walk_exhausted] in Hex. lia.
  - apply IH with (k := S k); try lia; [discriminate | exact Hex].
Qed.

(** X13: with minimum-difficulty blocks not allowed, Hybrid PoW returns the
    packed hybrid PoW ceiling whenever fewer than 24 work blocks above the
    hybrid start height can be reached from the most recent work block: if
    the walk over work blocks is exhausted after some [k] of at most 23
    steps, the window is incomplete. *)
Theorem HybridPoW_incomplete_window : forall bIn anc params k,
  fPowAllowMinDifficultyBlocks params = false ->
  (1 <= k <= 23)%nat ->
  walk_exhausted
    (hybrid_steps k
       (if IsStaking bIn
        then GetHybridPrevIndex (bIn :: anc) false (POSPOWStartHeight params)
        else bIn :: anc)
       (POSPOWStartHeight params)) params ->
  HybridPoWDarkGravityWave (bIn :: anc) params
  = Some (GetCompact (hybridPowLimit params)).
Proof.
  intros bIn anc params k Hmin Hk Hex. unfold HybridPoWDarkGravityWave.
  cbv zeta.
  match goal with
  | |- match ?t with _ => _ end = _ =>
    destruct t as [|bLast rest] eqn:Elast
  end; [reflexivity|].
  destruct (nHeight bLast <? POSPOWStartHeight params + 24); [reflexivity|].
  unfold hybrid_min_difficulty. rewrite Hmin.
  rewrite (hybrid_window_exhausts 24 1 (bLast :: rest) 0 params k);
    try reflexivity; try lia; [discriminate | exact Hex].
Qed.

(** ** Further properties of the averaged window *)

Lemma pivx_window_past_end : forall rest st,
  pivx_window rest 25 st = Some st.
Proof.
  intros [|b prev] st; [reflexivity|]. cbn [pivx_window].
  destruct (negb (nHeight b >? 0)); reflexivity.
Qed.

Lemma last_cons_default : forall (l : list Z) x d,
  last (x :: l) d = last l x.
Proof.
  induction l as [|y l IH]; intros x d; [reflexivity|].
  change (last (x :: y :: l) d) with (last (y :: l) d).
  rewrite (IH y d), (IH y x). reflexivity.
Qed.

Lemma last_map_nth : forall (w : chain) b rest d,
  last (map GetBlockTime w) (GetBlockTime b)
  = GetBlockTime (nth (length w) ((b :: w) ++ rest) d).
Proof.
  induction w as [|p w IH]; intros b rest d; [reflexivity|].
  change (map GetBlockTime (p :: w))
    with (GetBlockTime p :: map GetBlockTime w).
  rewrite last_cons_default. rewrite (IH p rest d). reflexivity.
Qed.

(** The window loop from its second iteration on, over blocks that all
    carry the target [T]: the average stays [T] and the time differences
    telescope. *)
Lemma pivx_window_constant : forall w rest i st T,
  2 <= i -> Z.of_nat (length w) = 25 - i ->
  CountBlocks st = i - 1 ->
  PastDifficultyAverage st = T -> PastDifficultyAveragePrev st = T ->
  0 < LastBlockTime st ->
  0 <= T -> T * 25 < 2 ^ 256 ->
  Forall (fun b => 0 < nHeight b /\ 0 < GetBlockTime b
                   /\ decode (nBits b) = T) w ->
  pivx_window (w ++ rest) i st
  = Some (mkDgw 24 T T
            (last (map GetBlockTime w) (LastBlockTime st))
            (nActualTimespan st + LastBlockTime st
             - last (map GetBlockTime w) (LastBlockTime st))).
Proof.
  induction w as [|b w IH]; intros rest i st T Hi Hlen Hc Ha Hp Hl HT Hfit Hall.
  - change (Z.of_nat (length (@nil CBlockIndex))) with 0 in Hlen.
    assert (i = 25) by lia. subst i.
    cbn [app map last]. rewrite pivx_window_past_end.
    destruct st as [c a p l s]. cbn in *. subst.
    f_equal. f_equal. ring.
  - inversion Hall as [|b' w' (Hh & Ht & Hb) Hall']. subst b' w'.
    cbn [length] in Hlen. rewrite Nat2Z.inj_succ in Hlen.
    cbn [app pivx_window].
    replace (nHeight b >? 0) with true
      by (symmetry; rewrite Z.gtb_ltb; apply Z.ltb_lt; lia).
    replace (i >? 24) with false
      by (symmetry; rewrite Z.gtb_ltb; apply Z.ltb_ge; lia).
    rewrite Bool.andb_false_r. cbn [negb]. rewrite Hc.
    replace (i - 1 + 1) with i by ring.
    replace (i <=? 24) with true by (symmetry; apply Z.leb_le; lia).
    replace (i =? 1) with false by (symmetry; apply Z.eqb_neq; lia).
    rewrite Hp, Hb.
    assert (Hstep : Arith256.div (add (mul32 T i) T) (i + 1) = Some T).
    { unfold Arith256.div, add, mul32, to_uint32, to_uint64, two256.
      rewrite (Z.mod_small i) by lia.
      rewrite (Z.mod_small (i + 1)) by lia.
      replace (i + 1 =? 0) with false by (symmetry; apply Z.eqb_neq; lia).
      assert (0 <= T * i) by (apply Z.mul_nonneg_nonneg; lia).
      assert (T * i <= T * 24) by (apply Z.mul_le_mono_nonneg_l; lia).
      rewrite (Z.mod_small (T * i)) by lia.
      rewrite (Z.mod_small (T * i + T)) by lia.
      replace (T * i + T) with (T * (i + 1)) by ring.
      rewrite Z.div_mul by lia. reflexivity. }
    rewrite Hstep. cbn [bind fst snd].
    replace (LastBlockTime st >? 0) with true
      by (symmetry; rewrite Z.gtb_ltb; apply Z.ltb_lt; lia).
    destruct (w ++ rest) as [|p tl] eqn:Etl.
    + apply app_eq_nil in Etl. destruct Etl as [-> ->].
      cbn [map last]. change (Z.of_nat (length (@nil CBlockIndex))) with 0 in Hlen.
      assert (i = 24) by lia. subst i.
      f_equal. f_equal. ring.
    + rewrite <- Etl.
      rewrite (IH rest (i + 1) _ T); cbn [CountBlocks PastDifficultyAverage
        PastDifficultyAveragePrev LastBlockTime nActualTimespan];
        try lia; try reflexivity; try assumption.
      change (map GetBlockTime (b :: w))
        with (GetBlockTime b :: map GetBlockTime w).
      rewrite last_cons_default. f_equal. f_equal. ring.
Qed.

(** The averaged-window branch over a full window of 24 blocks that all
    carry the target [T]. *)
Lemma Pivx_constant_window : forall w rest params fProofOfStake T,
  fPowNoRetargeting params = false ->
  length w = 24%nat ->
  Forall (fun b => 0 < nHeight b /\ 0 < GetBlockTime b
                   /\ decode (nBits b) = T) w ->
  T * 25 < 2 ^ 256 ->
  DGWDifficultyStartHeight params + 24 <= nHeight (block_at 0 (w ++ rest)) ->
  nHeight (block_at 0 (w ++ rest)) <= POSStartHeight params ->
  (NetworkIDString <> TESTNET
   \/ nHeight (block_at 0 (w ++ rest)) + 3 <= POSStartHeight params) ->
  GetNextWorkRequiredPivx (w ++ rest) params fProofOfStake
  = pivx_rescale T
      (GetBlockTime (block_at 0 (w ++ rest))
       - GetBlockTime (block_at 23 (w ++ rest)))
      24 params (track_limit params fProofOfStake).
Proof.
  intros w rest params fProofOfStake T Hflag Hlen Hall Hfit Hdgw Hpos Htest.
  destruct w as [|b w]; [discriminate Hlen|].
  inversion Hall as [|b' w' (Hh & Ht & Hb) Hall']. subst b' w'.
  pose proof (decode_range (nBits b)) as HT. rewrite Hb in HT.
  unfold block_at in *. cbn [app nth] in Hdgw, Hpos, Htest.
  unfold GetNextWorkRequiredPivx. rewrite Hflag. cbn [app].
  replace (nHeight b =? 0) with false by (symmetry; apply Z.eqb_neq; lia).
  replace (nHeight b <? DGWDifficultyStartHeight params + 24) with false
    by (symmetry; apply Z.ltb_ge; lia).
  cbn [orb]. cbv zeta.
  replace (nHeight b >? POSStartHeight params) with false
    by (symmetry; rewrite Z.gtb_ltb; apply Z.ltb_ge; lia).
  replace (Network_eqb NetworkIDString TESTNET
           && (nHeight b + 3 >? POSStartHeight params)) with false.
  2:{ symmetry. destruct Htest as [Hnet | Hlow].
      - destruct NetworkIDString; try reflexivity. contradiction Hnet.
        reflexivity.
      - replace (nHeight b + 3 >? POSStartHeight params) with false
          by (symmetry; rewrite Z.gtb_ltb; apply Z.ltb_ge; lia).
        apply Bool.andb_false_r. }
  (* first iteration *)
  cbn [pivx_window].
  replace (nHeight b >? 0) with true
    by (symmetry; rewrite Z.gtb_ltb; apply Z.ltb_lt; lia).
  cbn [negb andb CountBlocks LastBlockTime nActualTimespan
       PastDifficultyAverage PastDifficultyAveragePrev].
  change (1 >? 24) with false. change (0 + 1 <=? 24) with true.
  change (0 + 1 =? 1) with true. change (0 >? 0) with false.
  cbn [bind fst snd andb]. change (0 + 1) with 1.
  destruct (w ++ rest) as [|p tl] eqn:Etl.
  { apply app_eq_nil in Etl. destruct Etl as [-> _]. discriminate Hlen. }
  rewrite <- Etl. rewrite Hb. change (1 + 1) with 2.
  assert (Hlen' : Z.of_nat (length w) = 25 - 2)
    by (cbn [length] in Hlen; lia).
  rewrite (pivx_window_constant w rest 2 (mkDgw 1 T T (GetBlockTime b) 0) T
             ltac:(lia) Hlen' eq_refl eq_refl eq_refl Ht (proj1 HT) Hfit
             Hall').
  rewrite Bool.andb_false_r.
  cbn [bind CountBlocks PastDifficultyAverage nActualTimespan LastBlockTime].
  rewrite (last_map_nth w b rest (mkBlock 0 0 0 0)).
  replace (length w) with 23%nat by (cbn [length] in Hlen; lia).
  unfold pivx_rescale, cap. cbn [app nth].
  replace (0 + GetBlockTime b
           - GetBlockTime (nth 23 (b :: w ++ rest) (mkBlock 0 0 0 0)))
    with (GetBlockTime b
          - GetBlockTime (nth 23 (b :: w ++ rest) (mkBlock 0 0 0 0)))
    by ring.
  reflexivity.
Qed.

(** X14: on a full window of 24 blocks of positive height and positive
    timestamp that all carry the same decoded target [T] (25 times [T]
    fitting 256 bits), the averaged-window branch keeps the running average
    at [T], sums the block intervals to the time from the 24th block of the
    window to the previous block, and so returns the single rescaling of [T]
    by that timespan over 24 nominal spacings. *)
Theorem Pivx_constant_target_rescale :
  forall w rest params fProofOfStake T,
  fPowNoRetargeting params = false ->
  length w = 24%nat ->
  Forall (fun b => 0 < nHeight b /\ 0 < GetBlockTime b
                   /\ decode (nBits b) = T) w ->
  T * 25 < 2 ^ 256 ->
  DGWDifficultyStartHeight params + 24 <= nHeight (block_at 0 (w ++ rest)) ->
  nHeight (block_at 0 (w ++ rest)) <= POSStartHeight params ->
  (NetworkIDString <> TESTNET
   \/ nHeight (block_at 0 (w ++ rest)) + 3 <= POSStartHeight params) ->
  GetNextWorkRequiredPivx (w ++ rest) params fProofOfStake
  = pivx_rescale T
      (GetBlockTime (block_at 0 (w ++ rest))
       - GetBlockTime (block_at 23 (w ++ rest)))
      24 params (track_limit params fProofOfStake).
Proof. exact Pivx_constant_window. Qed.

(** X15: the averaged-window branch is not neutral at the nominal pace.  On
    a full window of 24 blocks with constant decoded target [T] whose first
    and last block are exactly 23 nominal spacings apart, the window is
    measured against 24 nominal spacings and the result is the encoding of
    [T * 23 / 24], clamped to the ceiling of the track. *)
Theorem Pivx_nominal_pace_drift :
  forall w rest params fProofOfStake T,
  fPowNoRetargeting params = false ->
  length w = 24%nat ->
  Forall (fun b => 0 < nHeight b /\ 0 < GetBlockTime b
                   /\ decode (nBits b) = T) w ->
  DGWDifficultyStartHeight params + 24 <= nHeight (block_at 0 (w ++ rest)) ->
  nHeight (block_at 0 (w ++ rest)) <= POSStartHeight params ->
  (NetworkIDString <> TESTNET
   \/ nHeight (block_at 0 (w ++ rest)) + 3 <= POSStartHeight params) ->
  0 < nPosTargetSpacing params -> 72 * nPosTargetSpacing params < 2 ^ 32 ->
  T * 25 < 2 ^ 256 ->
  T * (23 * nPosTargetSpacing params) < 2 ^ 256 ->
  GetBlockTime (block_at 0 (w ++ rest))
  - GetBlockTime (block_at 23 (w ++ rest))
  = 23 * nPosTargetSpacing params ->
  GetNextWorkRequiredPivx (w ++ rest) params fProofOfStake
  = Some (GetCompact (cap (track_limit params fProofOfStake) (T * 23 / 24))).
Proof.
  intros w rest params fProofOfStake T Hflag Hlen Hall Hdgw Hpos Htest
         Hs Hs32 Hfit Hfit' Hspan.
  rewrite (Pivx_constant_window w rest params fProofOfStake T) by assumption.
  rewrite Hspan. unfold pivx_rescale.
  set (s := nPosTargetSpacing params) in *.
  assert (HT : 0 <= T).
  { destruct w as [|b w]; [discriminate Hlen|].
    inversion Hall as [|b' w' (_ & _ & Hb) _]. subst.
    apply decode_range. }
  assert (Hq : Z.quot (24 * s) 3 = 8 * s).
  { rewrite quot_nonneg_div by lia.
    replace (24 * s) with (8 * s * 3) by ring. apply Z.div_mul. lia. }
  cbv zeta. rewrite Hq.
  replace (23 * s <? 8 * s) with false by (symmetry; apply Z.ltb_ge; lia).
  replace (23 * s >? 24 * s * 3) with false
    by (symmetry; rewrite Z.gtb_ltb; apply Z.ltb_ge; lia).
  unfold mul32, Arith256.div, to_uint32, to_uint64, two256.
  rewrite (Z.mod_small (23 * s)) by lia.
  rewrite (Z.mod_small (24 * s)) by lia.
  assert (0 <= T * (23 * s)) by (apply Z.mul_nonneg_nonneg; lia).
  rewrite (Z.mod_small (T * (23 * s))) by lia.
  replace (24 * s =? 0) with false by (symmetry; apply Z.eqb_neq; lia).
  cbn [bind].
  replace (T * (23 * s)) with (T * 23 * s) by ring.
  rewrite Z.div_mul_cancel_r by lia. reflexivity.
Qed.

(** X16: on a full window of 24 blocks with constant decoded target [T],
    the averaged-window branch at most triples the target: whatever the
    timestamps, the result decodes without flags to at most [3 * T]. *)
Theorem Pivx_at_most_triples :
  forall w rest params fProofOfStake T,
  limits_ok params ->
  fPowNoRetargeting params = false ->
  length w = 24%nat ->
  Forall (fun b => 0 < nHeight b /\ 0 < GetBlockTime b
                   /\ decode (nBits b) = T) w ->
  T * 25 < 2 ^ 256 ->
  DGWDifficultyStartHeight params + 24 <= nHeight (block_at 0 (w ++ rest)) ->
  nHeight (block_at 0 (w ++ rest)) <= POSStartHeight params ->
  (NetworkIDString <> TESTNET
   \/ nHeight (block_at 0 (w ++ rest)) + 3 <= POSStartHeight params) ->
  0 < nPosTargetSpacing params -> 72 * nPosTargetSpacing params < 2 ^ 32 ->
  exists r,
    GetNextWorkRequiredPivx (w ++ rest) params fProofOfStake = Some r
    /\ decodes_within 0 r (3 * T).
Proof.
  intros w rest params fProofOfStake T Hok Hflag Hlen Hall Hfit Hdgw Hpos
         Htest Hs Hs32.
  pose proof (track_limit_ok params fProofOfStake Hok) as Htrack.
  rewrite (Pivx_constant_window w rest params fProofOfStake T) by assumption.
  unfold pivx_rescale.
  set (s := nPosTargetSpacing params) in *.
  set (span0 := GetBlockTime (block_at 0 (w ++ rest))
                - GetBlockTime (block_at 23 (w ++ rest))).
  assert (HT : 0 <= T).
  { destruct w as [|b w]; [discriminate Hlen|].
    inversion Hall as [|b' w' (_ & _ & Hb) _]. subst.
    apply decode_range. }
  assert (Hq : Z.quot (24 * s) 3 = 8 * s).
  { rewrite quot_nonneg_div by lia.
    replace (24 * s) with (8 * s * 3) by ring. apply Z.div_mul. lia. }
  cbv zeta. rewrite Hq.
  set (span1 := if span0 <? 8 * s then 8 * s else span0).
  set (span2 := if span1 >? 24 * s * 3 then 24 * s * 3 else span1).
  assert (Hspan : 0 <= span2 <= 72 * s).
  { unfold span2, span1. rewrite Z.gtb_ltb.
    destruct (span0 <? 8 * s) eqn:E1;
      [apply Z.ltb_lt in E1 | apply Z.ltb_ge in E1].
    - replace (24 * s * 3 <? 8 * s) with false
        by (symmetry; apply Z.ltb_ge; lia).
      lia.
    - destruct (24 * s * 3 <? span0) eqn:E2;
        [apply Z.ltb_lt in E2 | apply Z.ltb_ge in E2]; lia. }
  unfold Arith256.div, to_uint64.
  rewrite (Z.mod_small (24 * s)) by lia.
  replace (24 * s =? 0) with false by (symmetry; apply Z.eqb_neq; lia).
  cbn [bind]. eexists. split; [reflexivity|].
  assert (Hm : 0 <= mul32 T span2 <= T * span2).
  { unfold mul32, to_uint32, two256. rewrite (Z.mod_small span2) by lia.
    split; [apply Z.mod_pos_bound; reflexivity|].
    apply Z.mod_le; [apply Z.mul_nonneg_nonneg; lia | reflexivity]. }
  assert (Hm' : mul32 T span2 < 2 ^ 256)
    by (unfold mul32, two256; apply Z.mod_pos_bound; reflexivity).
  set (bn := mul32 T span2 / (24 * s)).
  assert (Hbn : 0 <= bn <= 3 * T).
  { unfold bn. split; [apply Z.div_pos; lia|].
    apply Z.div_le_upper_bound; [lia|].
    assert (T * span2 <= T * (72 * s))
      by (apply Z.mul_le_mono_nonneg_l; lia).
    lia. }
  assert (Hbn' : bn <= mul32 T span2).
  { unfold bn. apply Z.div_le_upper_bound; [lia|].
    assert (1 * mul32 T span2 <= 24 * s * mul32 T span2)
      by (apply Z.mul_le_mono_nonneg_r; lia).
    lia. }
  assert (Hc : 0 <= cap (track_limit params fProofOfStake) bn <= bn).
  { unfold cap. rewrite Z.gtb_ltb.
    destruct (track_limit params fProofOfStake <? bn) eqn:E;
      [apply Z.ltb_lt in E | apply Z.ltb_ge in E]; lia. }
  eapply decodes_within_weaken;
    [apply (GetCompact_within _ (cap (track_limit params fProofOfStake) bn));
     lia | | lia].
  destruct (cap (track_limit params fProofOfStake) bn =? 0); lia.
Qed.

(** The window loop of Hybrid PoW over work blocks that all carry the
    target [T]: it ends at the block reached after the remaining steps, with
    the average [T]. *)
Lemma hybrid_window_constant : forall t n pindex avg params T,
  1 <= n -> n + Z.of_nat (S t) = 25 ->
  (n = 1 \/ avg = T) ->
  0 <= T -> T * 25 < 2 ^ 256 ->
  (forall j, (j <= t)%nat -> window_block j pindex params T) ->
  hybrid_window (S t) n pindex avg params
  = Some (inr (hybrid_steps t pindex (POSPOWStartHeight params), T)).
Proof.
  induction t as [|t IH]; intros n pindex avg params T Hn Hsum Havg HT Hfit Hw.
  - assert (n = 24) by lia. subst n.
    pose proof (Hw 0%nat ltac:(lia)) as H0.
    unfold window_block in H0. cbn [hybrid_steps] in *.
    destruct pindex as [|b rest]; [contradiction|]. destruct H0 as [_ Hb].
    cbn [hybrid_window]. change (24 =? 1) with false.
    change (24 =? 24) with true. cbn [negb].
    destruct Havg as [Habs | ->]; [discriminate Habs|]. rewrite Hb.
    unfold Arith256.div, add, mul32, to_uint32, to_uint64, two256.
    change (24 mod 2 ^ 32) with 24. change ((24 + 1) mod 2 ^ 64) with 25.
    change (25 =? 0) with false.
    rewrite (Z.mod_small (T * 24)) by lia.
    rewrite (Z.mod_small (T * 24 + T)) by lia.
    replace (T * 24 + T) with (T * 25) by ring.
    rewrite Z.div_mul by lia. reflexivity.
  - pose proof (Hw 0%nat ltac:(lia)) as H0.
    pose proof (Hw 1%nat ltac:(lia)) as H1.
    unfold window_block in H0, H1. cbn [hybrid_steps] in H0, H1.
    destruct pindex as [|b rest]; [contradiction|]. destruct H0 as [_ Hb].
    rewrite Nat2Z.inj_succ in Hsum.
    change (hybrid_window (S (S t)) n (b :: rest) avg params)
      with (avg' <- (if n =? 1 then Some (decode (nBits b))
                     else Arith256.div
                            (add (mul32 avg n) (decode (nBits b))) (n + 1)) ;;
            if negb (n =? 24) then
              match GetHybridPrevIndex (b :: rest) false
                      (POSPOWStartHeight params) with
              | [] => Some (inl (GetCompact (hybridPowLimit params)))
              | b' :: _ =>
                if nHeight b' <=? POSPOWStartHeight params
                then Some (inl (GetCompact (hybridPowLimit params)))
                else hybrid_window (S t) (n + 1)
                       (GetHybridPrevIndex (b :: rest) false
                          (POSPOWStartHeight params)) avg' params
              end
            else hybrid_window (S t) (n + 1) (b :: rest) avg' params).
    assert (Hstep : (if n =? 1 then Some (decode (nBits b))
                     else Arith256.div
                            (add (mul32 avg n) (decode (nBits b))) (n + 1))
                    = Some T).
    { rewrite Hb. destruct (n =? 1) eqn:E1; [reflexivity|].
      apply Z.eqb_neq in E1. destruct Havg as [Habs | ->]; [lia|].
      unfold Arith256.div, add, mul32, to_uint32, to_uint64, two256.
      rewrite (Z.mod_small n) by lia. rewrite (Z.mod_small (n + 1)) by lia.
      replace (n + 1 =? 0) with false by (symmetry; apply Z.eqb_neq; lia).
      assert (0 <= T * n) by (apply Z.mul_nonneg_nonneg; lia).
      assert (T * n <= T * 24) by (apply Z.mul_le_mono_nonneg_l; lia).
      rewrite (Z.mod_small (T * n)) by lia.
      rewrite (Z.mod_small (T * n + T)) by lia.
      replace (T * n + T) with (T * (n + 1)) by ring.
      rewrite Z.div_mul by lia. reflexivity. }
    rewrite Hstep. cbn [bind].
    replace (n =? 24) with false by (symmetry; apply Z.eqb_neq; lia).
    cbn [negb].
    destruct (GetHybridPrevIndex (b :: rest) false (POSPOWStartHeight params))
      as [|b' rest'] eqn:Estep; [contradiction|].
    destruct H1 as [Hh1 _].
    replace (nHeight b' <=? POSPOWStartHeight params) with false
      by (symmetry; apply Z.leb_gt; lia).
    rewrite (IH (n + 1) (b' :: rest') T params T); try lia.
    + cbn [hybrid_steps]. rewrite Estep. reflexivity.
    + intros j Hj. specialize (Hw (S j) ltac:(lia)).
      unfold window_block in *. cbn [hybrid_steps] in Hw.
      rewrite Estep in Hw. exact Hw.
Qed.

(** The averaged-window branch of Hybrid PoW over 24 work blocks that all
    carry the target [T]. *)
Lemma HybridPoW_constant_window : forall bIn anc params T,
  IsStaking bIn = false ->
  fPowAllowMinDifficultyBlocks params = false ->
  POSPOWStartHeight params + 24 <= nHeight bIn ->
  T * 25 < 2 ^ 256 ->
  (forall j, (j <= 23)%nat -> window_block j (bIn :: anc) params T) ->
  HybridPoWDarkGravityWave (bIn :: anc) params
  = hybrid_rescale T
      (GetBlockTime bIn
       - GetBlockTime
           (block_at 0
              (hybrid_steps 23 (bIn :: anc) (POSPOWStartHeight params))))
      params.
Proof.
  intros bIn anc params T Hwork Hmin Hh Hfit Hw.
  assert (HT : 0 <= T).
  { pose proof (Hw 0%nat ltac:(lia)) as H0. unfold window_block in H0.
    cbn [hybrid_steps] in H0. destruct H0 as [_ <-]. apply decode_range. }
  unfold HybridPoWDarkGravityWave. rewrite Hwork. cbv zeta.
  replace (nHeight bIn <? POSPOWStartHeight params + 24) with false
    by (symmetry; apply Z.ltb_ge; lia).
  unfold hybrid_min_difficulty. rewrite Hmin.
  rewrite (hybrid_window_constant 23 1 (bIn :: anc) 0 params T
             ltac:(lia) ltac:(lia) (or_introl eq_refl) HT Hfit Hw).
  cbn [bind].
  pose proof (Hw 23%nat ltac:(lia)) as H23. unfold window_block in H23.
  destruct (hybrid_steps 23 (bIn :: anc) (POSPOWStartHeight params))
    as [|b rest]; [contradiction|].
  unfold hybrid_rescale, cap, block_at. cbn [nth]. reflexivity.
Qed.

(** X17: on a window of 24 work blocks above the hybrid start height,
    reached by the walker from a previous work block and all carrying the
    decoded target [T], Hybrid PoW (minimum-difficulty blocks not allowed)
    keeps the running average at [T] and returns the single rescaling of [T]
    by the time from the 24th work block to the previous block over 24
    hybrid PoW spacings, stake blocks in between being skipped. *)
Theorem HybridPoW_constant_target_rescale : forall bIn anc params T,
  IsStaking bIn = false ->
  fPowAllowMinDifficultyBlocks params = false ->
  POSPOWStartHeight params + 24 <= nHeight bIn ->
  T * 25 < 2 ^ 256 ->
  (forall j, (j <= 23)%nat -> window_block j (bIn :: anc) params T) ->
  HybridPoWDarkGravityWave (bIn :: anc) params
  = hybrid_rescale T
      (GetBlockTime bIn
       - GetBlockTime
           (block_at 0
              (hybrid_steps 23 (bIn :: anc) (POSPOWStartHeight params))))
      params.
Proof. exact HybridPoW_constant_window. Qed.

(** X18: on such a window Hybrid PoW at most quadruples the target:
    whatever the timestamps, the result decodes without flags to at most
    [4 * T]. *)
Theorem HybridPoW_at_most_quadruples : forall bIn anc params T,
  0 < hybridPowLimit params < 2 ^ 256 ->
  IsStaking bIn = false ->
  fPowAllowMinDifficultyBlocks params = false ->
  POSPOWStartHeight params + 24 <= nHeight bIn ->
  T * 25 < 2 ^ 256 ->
  (forall j, (j <= 23)%nat -> window_block j (bIn :: anc) params T) ->
  0 < nHybridPowTargetSpacing params ->
  96 * nHybridPowTargetSpacing params < 2 ^ 32 ->
  exists r,
    HybridPoWDarkGravityWave (bIn :: anc) params = Some r
    /\ decodes_within 0 r (4 * T).
Proof.
  intros bIn anc params T Hlim Hwork Hmin Hh Hfit Hw Hs Hs32.
  assert (HT : 0 <= T).
  { pose proof (Hw 0%nat ltac:(lia)) as H0. unfold window_block in H0.
    cbn [hybrid_steps] in H0. destruct H0 as [_ <-]. apply decode_range. }
  rewrite (HybridPoW_constant_window bIn anc params T) by assumption.
  unfold hybrid_rescale.
  set (s := nHybridPowTargetSpacing params) in *.
  set (span0 := GetBlockTime bIn
                - GetBlockTime
                    (block_at 0
                       (hybrid_steps 23 (bIn :: anc)
                          (POSPOWStartHeight params)))).
  assert (Hq : Z.quot (24 * s) 4 = 6 * s).
  { rewrite quot_nonneg_div by lia.
    replace (24 * s) with (6 * s * 4) by ring. apply Z.div_mul. lia. }
  cbv zeta. rewrite Hq.
  set (span1 := if span0 <? 6 * s then 6 * s else span0).
  set (span2 := if span1 >? 24 * s * 4 then 24 * s * 4 else span1).
  assert (Hspan : 0 <= span2 <= 96 * s).
  { unfold span2, span1. rewrite Z.gtb_ltb.
    destruct (span0 <? 6 * s) eqn:E1;
      [apply Z.ltb_lt in E1 | apply Z.ltb_ge in E1].
    - replace (24 * s * 4 <? 6 * s) with false
        by (symmetry; apply Z.ltb_ge; lia).
      lia.
    - destruct (24 * s * 4 <? span0) eqn:E2;
        [apply Z.ltb_lt in E2 | apply Z.ltb_ge in E2]; lia. }
  unfold Arith256.div, to_uint64.
  rewrite (Z.mod_small (24 * s)) by lia.
  replace (24 * s =? 0) with false by (symmetry; apply Z.eqb_neq; lia).
  cbn [bind]. eexists. split; [reflexivity|].
  assert (Hm : 0 <= mul32 T span2 <= T * span2).
  { unfold mul32, to_uint32, two256. rewrite (Z.mod_small span2) by lia.
    split; [apply Z.mod_pos_bound; reflexivity|].
    apply Z.mod_le; [apply Z.mul_nonneg_nonneg; lia | reflexivity]. }
  set (bn := mul32 T span2 / (24 * s)).
  assert (Hbn : 0 <= bn <= 4 * T).
  { unfold bn. split; [apply Z.div_pos; lia|].
    apply Z.div_le_upper_bound; [lia|].
    assert (T * span2 <= T * (96 * s))
      by (apply Z.mul_le_mono_nonneg_l; lia).
    lia. }
  assert (Hc : 0 <= cap (hybridPowLimit params) bn <= bn).
  { unfold cap. rewrite Z.gtb_ltb.
    destruct (hybridPowLimit params <? bn) eqn:E;
      [apply Z.ltb_lt in E | apply Z.ltb_ge in E]; lia. }
  eapply decodes_within_weaken;
    [apply (GetCompact_within _ (cap (hybridPowLimit params) bn)); lia
    | | lia].
  destruct (cap (hybridPowLimit params) bn =? 0); lia.
Qed.

(** ** Executions that return *)

Lemma small_divisor : forall a n, 0 < n < 2 ^ 64 ->
  Arith256.div a n = Some (a / n).
Proof.
  intros a n Hn. unfold Arith256.div, to_uint64.
  rewrite (Z.mod_small n) by lia.
  replace (n =? 0) with false by (symmetry; apply Z.eqb_neq; lia).
  reflexivity.
Qed.

Lemma hybrid_window_returns : forall todo n pindex avg params,
  pindex <> [] -> 1 <= n -> n + Z.of_nat todo = 25 ->
  exists res,
    hybrid_window todo n pindex avg params = Some res
    /\ match res with
       | inl _ => True
       | inr (p, _) => p <> []
       end.
Proof.
  induction todo as [|todo IH]; intros n pindex avg params Hne Hn Hsum.
  - eexists. split; [reflexivity | exact Hne].
  - destruct pindex as [|b rest]; [contradiction Hne; reflexivity|].
    rewrite Nat2Z.inj_succ in Hsum. cbn [hybrid_window].
    assert (Hdiv : exists avg',
               (if n =? 1 then Some (decode (nBits b))
                else Arith256.div (add (mul32 avg n) (decode (nBits b)))
                       (n + 1)) = Some avg').
    { destruct (n =? 1); [eexists; reflexivity|].
      rewrite small_divisor by lia. eexists. reflexivity. }
    destruct Hdiv as (avg' & ->). cbn [bind].
    destruct (negb (n =? 24)).
    + destruct (GetHybridPrevIndex (b :: rest) false
                  (POSPOWStartHeight params)) as [|b' rest'];
        [eexists; split; [reflexivity | exact I]|].
      destruct (nHeight b' <=? POSPOWStartHeight params);
        [eexists; split; [reflexivity | exact I]|].
      apply IH; [discriminate | lia | lia].
    + apply IH; [discriminate | lia | lia].
Qed.

(** Hybrid PoW on a chain of typed blocks, for spacings that keep the
    [int64_t] values of the source in range. *)
Lemma HybridPoW_returns : forall bIn anc params,
  0 < nHybridPowTargetSpacing params ->
  96 * nHybridPowTargetSpacing params < 2 ^ 63 ->
  - 2 ^ 60 <= nPowTargetSpacing params <= 2 ^ 60 ->
  is_int (POSPOWStartHeight params) ->
  chain_typed (bIn :: anc) ->
  exists r, HybridPoWDarkGravityWave (bIn :: anc) params = Some r.
Proof.
  intros bIn anc params Hsp0 Hsp1 _ _ _.
  assert (Hsp : 0 < 24 * nHybridPowTargetSpacing params < 2 ^ 64) by lia.
  unfold HybridPoWDarkGravityWave. cbv zeta.
  match goal with
  | |- exists _, match ?t with _ => _ end = _ => destruct t as [|bLast rest]
  end; [eexists; reflexivity|].
  destruct (nHeight bLast <? POSPOWStartHeight params + 24);
    [eexists; reflexivity|].
  destruct (hybrid_min_difficulty (bLast :: rest) bLast params);
    [eexists; reflexivity|].
  destruct (hybrid_window_returns 24 1 (bLast :: rest) 0 params
              ltac:(discriminate) ltac:(lia) ltac:(reflexivity))
    as ([r | [p a]] & -> & Hres); cbn [bind]; [eexists; reflexivity|].
  destruct p as [|b rest']; [contradiction Hres; reflexivity|].
  rewrite small_divisor by lia. cbn [bind]. eexists. reflexivity.
Qed.

(** X19: for a positive hybrid PoW spacing whose 96-fold is below [2^63],
    a PoW spacing of magnitude at most [2^60] and a hybrid start height
    that is an [int], Hybrid PoW returns a packed target for every present
    previous block of a chain of typed blocks: every block the window loop
    reads has been checked to exist, and no division is by zero.  Under
    these bounds no [int64_t] value of the source overflows: the largest
    product is 4 times the target timespan of 24 spacings, the
    minimum-difficulty test adds 4 PoW spacings to a 32-bit timestamp, and
    the actual timespan is a difference of 32-bit timestamps. *)
Theorem HybridPoW_defined : forall bIn anc params,
  0 < nHybridPowTargetSpacing params ->
  96 * nHybridPowTargetSpacing params < 2 ^ 63 ->
  - 2 ^ 60 <= nPowTargetSpacing params <= 2 ^ 60 ->
  is_int (POSPOWStartHeight params) ->
  chain_typed (bIn :: anc) ->
  exists r, HybridPoWDarkGravityWave (bIn :: anc) params = Some r.
Proof. exact HybridPoW_returns. Qed.

Lemma pivx_window_returns : forall c i st,
  1 <= i <= 25 -> CountBlocks st = i - 1 ->
  exists st',
    pivx_window c i st = Some st'
    /\ i - 1 <= CountBlocks st' <= 24
    /\ match c with
       | [] => True
       | b :: _ => 0 < nHeight b -> i <= 24 -> i <= CountBlocks st'
       end.
Proof.
  induction c as [|b prev IH]; intros i st Hi Hc.
  - exists st. split; [reflexivity|]. split; [lia | exact I].
  - cbn [pivx_window].
    destruct (nHeight b >? 0) eqn:Eh; cbn [negb].
    2:{ rewrite Z.gtb_ltb in Eh. apply Z.ltb_ge in Eh.
        exists st. split; [reflexivity|]. split; [lia|]. intros; lia. }
    destruct (i >? 24) eqn:Ei.
    { rewrite Z.gtb_ltb in Ei. apply Z.ltb_lt in Ei.
      exists st. split; [reflexivity|]. split; [lia|]. intros; lia. }
    rewrite Z.gtb_ltb in Ei. apply Z.ltb_ge in Ei.
    change ((24 >? 0) && false) with false. cbv iota.
    rewrite Hc. replace (i - 1 + 1) with i by ring.
    replace (i <=? 24) with true by (symmetry; apply Z.leb_le; lia).
    assert (Hdiv : exists avg,
               (if i =? 1 then Some (decode (nBits b))
                else Arith256.div
                       (add (mul32 (PastDifficultyAveragePrev st) i)
                          (decode (nBits b))) (i + 1)) = Some avg).
    { destruct (i =? 1); [eexists; reflexivity|].
      rewrite small_divisor by lia. eexists. reflexivity. }
    destruct Hdiv as (avg & ->). cbn [bind fst snd].
    destruct prev as [|p rest].
    + eexists. split; [reflexivity|].
      cbn [CountBlocks]. split; [lia|]. intros; lia.
    + destruct (IH (i + 1) (mkDgw i avg avg (GetBlockTime b)
                     (if LastBlockTime st >? 0
                      then nActualTimespan st
                           + (LastBlockTime st - GetBlockTime b)
                      else nActualTimespan st))
                  ltac:(lia) ltac:(cbn [CountBlocks]; lia))
        as (st' & Hst' & Hb & _).
      exists st'. split; [exact Hst'|]. split; [lia|]. intros; lia.
Qed.

(** The averaged window on a chain of typed blocks, for a spacing and
    start heights that keep the [int] and [int64_t] values of the source
    in range. *)
Lemma Pivx_returns : forall bLast anc params fProofOfStake,
  0 < nPosTargetSpacing params ->
  72 * nPosTargetSpacing params < 2 ^ 63 ->
  is_int (DGWDifficultyStartHeight params) ->
  POSStartHeight params + 3 < 2 ^ 31 ->
  chain_typed (bLast :: anc) ->
  0 <= nHeight bLast -> (nHeight bLast <> 0 -> anc <> []) ->
  exists r,
    GetNextWorkRequiredPivx (bLast :: anc) params fProofOfStake = Some r.
Proof.
  intros bLast anc params fProofOfStake Hsp0 Hsp1 _ _ _ Hh Hprev.
  assert (Hsp : 0 < 24 * nPosTargetSpacing params < 2 ^ 64) by lia.
  assert (Hexp : forall limit,
             exists r, nHeight bLast <> 0 ->
                       pivx_exponential (bLast :: anc) bLast limit = Some r).
  { intros limit. unfold pivx_exponential.
    destruct (Z.eq_dec (nHeight bLast) 0) as [E0 | E0];
      [exists 0; intros H; contradiction (H E0)|].
    replace (nHeight bLast =? 0) with false
      by (symmetry; apply Z.eqb_neq; assumption).
    cbn [negb pprev tl].
    destruct anc as [|p rest]; [contradiction (Hprev E0); reflexivity|].
    cbn [bind]. cbv zeta.
    rewrite small_divisor by (vm_compute; split; reflexivity).
    cbn [bind]. eexists. intros _. reflexivity. }
  unfold GetNextWorkRequiredPivx.
  destruct (fPowNoRetargeting params); [eexists; reflexivity|].
  destruct (nHeight bLast =? 0) eqn:E0; [eexists; reflexivity|].
  apply Z.eqb_neq in E0. cbn [orb].
  destruct (nHeight bLast <? DGWDifficultyStartHeight params + 24);
    [eexists; reflexivity|].
  cbv zeta.
  destruct (nHeight bLast >? POSStartHeight params).
  { destruct (Hexp (if fProofOfStake then posLimit params
                    else powLimit params)) as (r & Hr).
    exists r. apply Hr. exact E0. }
  destruct (Network_eqb NetworkIDString TESTNET
            && (nHeight bLast + 3 >? POSStartHeight params)).
  { destruct (Hexp (posLimit params)) as (r & Hr).
    exists r. apply Hr. exact E0. }
  destruct (pivx_window_returns (bLast :: anc) 1 (mkDgw 0 0 0 0 0)
              ltac:(lia) ltac:(reflexivity)) as (st & -> & Hb & Hfirst).
  cbn [bind]. specialize (Hfirst ltac:(lia) ltac:(lia)).
  rewrite small_divisor. 2:{ split; nia. }
  cbn [bind]. eexists. reflexivity.
Qed.

(** X20: for a positive nominal spacing whose 72-fold is below [2^63], an
    averaged-window start height that is an [int] and a PoS start height
    to which 3 can be added within [int], the averaged-window function
    returns a packed target for every previous block of non-negative height
    of a chain of typed blocks that has a predecessor unless its height is
    zero: the window counts at least one block, so the target timespan it
    divides by is not zero.  Under these bounds no signed value of the
    source overflows: the largest product is 3 times the target timespan of
    at most 24 spacings, the actual timespan is a sum of at most 23
    differences of 32-bit timestamps, the exponential branch adds twice
    such a difference to 39 times 60, and [nHeight + 3] is evaluated only
    for a height at or below the PoS start height. *)
Theorem Pivx_defined : forall bLast anc params fProofOfStake,
  0 < nPosTargetSpacing params ->
  72 * nPosTargetSpacing params < 2 ^ 63 ->
  is_int (DGWDifficultyStartHeight params) ->
  POSStartHeight params + 3 < 2 ^ 31 ->
  chain_typed (bLast :: anc) ->
  0 <= nHeight bLast -> (nHeight bLast <> 0 -> anc <> []) ->
  exists r,
    GetNextWorkRequiredPivx (bLast :: anc) params fProofOfStake = Some r.
Proof. exact Pivx_returns. Qed.

(** The legacy algorithm on a chain of typed blocks: its spacings are
    literals, and the divisor is 11 times 64. *)
Lemma Orig_returns : forall bLast anc params fProofOfStake,
  chain_typed (bLast :: anc) ->
  exists r,
    GetNextWorkRequiredOrig (bLast :: anc) params fProofOfStake = Some r.
Proof.
  intros bLast anc params fProofOfStake _. unfold GetNextWorkRequiredOrig.
  destruct (fPowNoRetargeting params); [eexists; reflexivity|].
  cbv zeta.
  destruct (skip_other_type (bLast :: anc) params fProofOfStake)
    as [|bPrev prev]; [eexists; reflexivity|].
  destruct (skip_other_type prev params fProofOfStake)
    as [|bPrevPrev rest]; [eexists; reflexivity|].
  rewrite small_divisor by (destruct fProofOfStake; vm_compute; split;
                            reflexivity).
  cbn [bind]. eexists. reflexivity.
Qed.

(** X21: the dispatcher returns a packed target for every present previous
    block of a chain of typed blocks whose height is non-negative and below
    the largest [int] (so that the new height [nHeight + 1] is an [int]),
    provided the parameters are sane ([params_sane]: PoS start height not
    above the hybrid start height, start heights in [int], positive
    spacings whose products stay below [2^63]), the genesis timestamp is
    32-bit, the block has a predecessor unless its height is zero, and the
    timestamps do not decrease from a block to its successor.  Under these
    bounds no [int] or [int64_t] value of the source overflows in the
    dispatcher or in the algorithm it calls; the legacy algorithm has
    literal spacings and adds twice a difference of 32-bit timestamps to 9
    times 64. *)
Theorem GetNextWorkRequired_defined : forall bLast anc params fHybridPow,
  params_sane params ->
  is_uint32 GenesisBlock_nTime ->
  chain_typed (bLast :: anc) ->
  0 <= nHeight bLast < 2 ^ 31 - 1 ->
  (nHeight bLast <> 0 -> anc <> []) ->
  times_ascend (bLast :: anc) ->
  exists r, GetNextWorkRequired (bLast :: anc) params fHybridPow = Some r.
Proof.
  intros bLast anc params fHybridPow
         (Hord & Hpos3 & Hhyb & Hdgw & Hps0 & Hps1 & Hpw0 & Hpw1 & Hpow
          & Hnom0 & Hnom1 & Hmsp & Hmts) Hgen Hty Hh Hprev Hasc.
  unfold GetNextWorkRequired. cbv zeta.
  rewrite to_int32_small by lia.
  destruct (nHeight bLast <? nMinimumDifficultyBlocks params);
    [eexists; reflexivity|].
  destruct (nHeight bLast + 1 >=? POSPOWStartHeight params).
  - destruct fHybridPow.
    + apply HybridPoW_returns; assumption.
    + apply HybridPoS_returns; assumption.
  - destruct (nHeight bLast >=? DGWDifficultyStartHeight params).
    + apply Pivx_returns; try assumption. lia.
    + destruct (nHeight bLast >=? MidasStartHeight params).
      * apply Midas_returns; try assumption; lia.
      * apply Orig_returns. assumption.
Qed.

End Pow.

(** ** The theorems at concrete inputs *)

(** Closed comparisons and equations, by evaluation. *)
Ltac by_compute :=
  vm_compute; first [reflexivity | discriminate | intro; discriminate].

(** Closed range conditions on blocks, chains and parameters. *)
Ltac by_ranges := vm_compute; repeat split; intro; discriminate.

(** The walker on five blocks of heights 10 down to 6: with floor 7 it
    finds the stake block of height 8; with floor 9 no stake ancestor
    qualifies. *)
Lemma GetHybridPrevIndex_nearest_witness :
  heights_descend walker_chain
  /\ GetHybridPrevIndex sample_mask sample_staking walker_chain true 7
     = nearest_matching sample_mask sample_staking (pprev walker_chain) true 7
  /\ GetHybridPrevIndex sample_mask sample_staking walker_chain true 9 = [].
Proof.
  assert (Hd : heights_descend walker_chain) by (simpl; lia).
  split; [exact Hd|]. split.
  - destruct (GetHybridPrevIndex_nearest sample_mask sample_staking
                walker_chain true 7) as (_ & H & _).
    exact (H Hd).
  - destruct (GetHybridPrevIndex_nearest sample_mask sample_staking
                walker_chain true 9) as (_ & _ & H).
    apply H. intros q Hin Hst. simpl in Hin.
    destruct Hin as [<-|[<-|[<-|[<-|[]]]]]; try discriminate Hst; by_compute.
Defined.

(** The classifier at the threshold 1000, inside and outside the table on
    the main network, and on the test network. *)
Lemma IsProofOfStakeHeight_spec_witness :
  IsProofOfStakeHeight MAIN 1000 (sample_params false) = true
  /\ (IsProofOfStakeHeight MAIN 455 (sample_params false) = true
      <-> exists lo hi, In (lo, hi) historical_table /\ lo <= 455 <= hi)
  /\ IsProofOfStakeHeight MAIN 480 (sample_params false)
     = in_historical_table 480
  /\ IsProofOfStakeHeight TESTNET 455 (sample_params false) = false.
Proof.
  split; [|split; [|split]].
  - destruct (IsProofOfStakeHeight_spec MAIN 1000 (sample_params false))
      as (H & _).
    apply H. by_compute.
  - destruct (IsProofOfStakeHeight_spec MAIN 455 (sample_params false))
      as (_ & H & _).
    apply H; [by_compute | reflexivity].
  - destruct (IsProofOfStakeHeight_spec MAIN 480 (sample_params false))
      as (_ & _ & H & _).
    apply H; [by_compute | reflexivity | lia].
  - destruct (IsProofOfStakeHeight_spec TESTNET 455 (sample_params false))
      as (_ & _ & _ & H).
    apply H; [by_compute | discriminate].
Defined.

(** The verifier for the target [0x1e0fffff]: a hash equal to the target
    passes, the next larger hash does not. *)
Lemma CheckProofOfWork_spec_witness :
  CheckProofOfWork (decode bits_1e0fffff) bits_1e0fffff (sample_params false)
  = true
  /\ (CheckProofOfWork (decode bits_1e0fffff + 1) bits_1e0fffff
        (sample_params false) = false
      <-> decode bits_1e0fffff + 1 > decode bits_1e0fffff).
Proof.
  assert (Hdec : SetCompact bits_1e0fffff
                 = (decode bits_1e0fffff, false, false))
    by (vm_compute; reflexivity).
  assert (Hnz : decode bits_1e0fffff <> 0) by (vm_compute; discriminate).
  assert (Hle : decode bits_1e0fffff <= powLimit (sample_params false))
    by (vm_compute; discriminate).
  split.
  - apply (proj2 (CheckProofOfWork_spec (decode bits_1e0fffff) bits_1e0fffff
                    (sample_params false) _ _ _ Hdec)
                 eq_refl Hnz eq_refl Hle).
    reflexivity.
  - apply (proj2 (CheckProofOfWork_spec (decode bits_1e0fffff + 1)
                    bits_1e0fffff (sample_params false) _ _ _ Hdec)
                 eq_refl Hnz eq_refl Hle).
Defined.

(** The asymmetry of the thresholds: a previous block one below the hybrid
    start height is dispatched to the hybrid algorithms, a previous block one
    below the averaged-window start height is still dispatched to Midas. *)
Lemma GetNextWorkRequired_dispatch_witness :
  GetNextWorkRequired MAIN sample_genesis_time sample_mask sample_staking
    [mkBlock 1319999 0 bits_1e0fffff stake_version] (sample_params false) true
  = HybridPoWDarkGravityWave sample_mask sample_staking
      [mkBlock 1319999 0 bits_1e0fffff stake_version] (sample_params false)
  /\ GetNextWorkRequired MAIN sample_genesis_time sample_mask sample_staking
       [mkBlock 549999 0 bits_1e0fffff stake_version] (sample_params false)
       true
     = GetNextWorkRequiredMidas sample_genesis_time
         [mkBlock 549999 0 bits_1e0fffff stake_version] (sample_params false)
         (IsProofOfStakeHeight MAIN (549999 + 1) (sample_params false)).
Proof.
  split.
  - destruct (GetNextWorkRequired_dispatch MAIN sample_genesis_time
                sample_mask sample_staking
                (mkBlock 1319999 0 bits_1e0fffff stake_version) []
                (sample_params false) true ltac:(split; by_compute))
      as (_ & H & _).
    apply H; by_compute.
  - destruct (GetNextWorkRequired_dispatch MAIN sample_genesis_time
                sample_mask sample_staking
                (mkBlock 549999 0 bits_1e0fffff stake_version) []
                (sample_params false) true ltac:(split; by_compute))
      as (_ & _ & _ & H & _).
    apply H; by_compute.
Defined.

(** The genesis block alone: all four averages are the nominal spacing. *)
Lemma avgRecentTimestamps_padding_witness :
  avgRecentTimestamps [mkBlock 0 sample_genesis_time bits_1e0fffff work_version]
    (sample_params false)
  = (64, 64, 64, 64).
Proof.
  assert (Hlen : (length (pprev [mkBlock 0 sample_genesis_time bits_1e0fffff
                                    work_version]) < 17)%nat)
    by (simpl; lia).
  destruct (avgRecentTimestamps_padding
              [mkBlock 0 sample_genesis_time bits_1e0fffff work_version]
              (sample_params false) Hlen) as (_ & _ & H).
  exact (H _ eq_refl).
Defined.

(** Eighteen blocks spaced by the desired 57 seconds and carrying the
    canonical target [0x1e0fffff]: Midas returns that packed target. *)
Lemma Midas_neutral_reencodes_witness :
  GetNextWorkRequiredMidas sample_genesis_time (midas_chain 57 bits_1e0fffff)
    (sample_params false) true
  = Some bits_1e0fffff.
Proof.
  destruct (Midas_neutral_reencodes sample_genesis_time
              (mkBlock 200000 on_schedule_time bits_1e0fffff stake_version)
              (regular_chain 17 199999 (on_schedule_time - 57) 57
                 bits_1e0fffff stake_version)
              (sample_params false) true 57)
    as (_ & _ & H & _); [by_compute | by_compute | by_compute |].
  apply H. by_compute.
Defined.

(** C8, as stated, fails: with all four averages equal to the desired
    interval of 57 seconds, Midas answers the re-encoded target [0x01120000]
    for the previous packed target [0x01123456]. *)
Lemma Midas_neutral_not_unchanged :
  midas_interval_desired sample_genesis_time
    (mkBlock 200000 on_schedule_time bits_01123456 stake_version)
    (sample_params false) = Some 57
  /\ avgRecentTimestamps (midas_chain 57 bits_01123456) (sample_params false)
     = (57, 57, 57, 57)
  /\ GetNextWorkRequiredMidas sample_genesis_time
       (midas_chain 57 bits_01123456) (sample_params false) true
     = Some 17956864
  /\ 17956864 <> bits_01123456.
Proof. repeat split; by_compute. Qed.

(** Three work blocks spaced 64 seconds and carrying the canonical target
    [0x1e0fffff]: the legacy algorithm returns that packed target. *)
Lemma Orig_equilibrium_witness :
  GetNextWorkRequiredOrig MAIN (legacy_chain 64 bits_1e0fffff)
    (sample_params false) false
  = Some bits_1e0fffff.
Proof.
  destruct (Orig_equilibrium MAIN (legacy_chain 64 bits_1e0fffff)
              (sample_params false) false
              (mkBlock 100 (sample_genesis_time + 6400) bits_1e0fffff
                 work_version)
              (regular_chain 2 99 (sample_genesis_time + 6400 - 64) 64
                 bits_1e0fffff work_version)
              (mkBlock 99 (sample_genesis_time + 6400 - 64) bits_1e0fffff
                 work_version)
              (regular_chain 1 98 (sample_genesis_time + 6400 - 64 - 64) 64
                 bits_1e0fffff work_version))
    as (_ & H);
    [reflexivity | by_compute | by_compute | by_compute | by_compute |].
  apply H; [split; by_compute | by_compute].
Defined.

(** C9, as stated, fails: the two most recent work blocks are exactly 64
    seconds apart, and the legacy algorithm answers [0x01120000] for the
    previous packed target [0x01123456]; for the previous packed target
    [0x2000ffff], which decodes above the ceiling, it answers the ceiling. *)
Lemma Orig_equilibrium_not_unchanged :
  skip_other_type MAIN (legacy_chain 64 bits_01123456) (sample_params false)
    false
  = legacy_chain 64 bits_01123456
  /\ skip_other_type MAIN (pprev (legacy_chain 64 bits_01123456))
       (sample_params false) false
     = pprev (legacy_chain 64 bits_01123456)
  /\ GetBlockTime (hd (mkBlock 0 0 0 0) (legacy_chain 64 bits_01123456))
     - GetBlockTime
         (hd (mkBlock 0 0 0 0) (pprev (legacy_chain 64 bits_01123456)))
     = 64
  /\ GetNextWorkRequiredOrig MAIN (legacy_chain 64 bits_01123456)
       (sample_params false) false
     = Some 17956864
  /\ 17956864 <> bits_01123456
  /\ GetNextWorkRequiredOrig MAIN (legacy_chain 64 536936447)
       (sample_params false) false
     = Some (GetCompact (powLimit (sample_params false)))
  /\ GetCompact (powLimit (sample_params false)) <> 536936447.
Proof. repeat split; by_compute. Qed.

(** With the flag set, the legacy and the averaged-window algorithms return
    the packed target of the previous block. *)
Lemma NoRetargeting_returns_previous_witness :
  GetNextWorkRequiredOrig MAIN (legacy_chain 70 bits_1d00ffff)
    (sample_params true) false
  = Some bits_1d00ffff
  /\ GetNextWorkRequiredPivx MAIN (legacy_chain 70 bits_1d00ffff)
       (sample_params true) false
     = Some bits_1d00ffff.
Proof.
  destruct (NoRetargeting_returns_previous MAIN sample_mask sample_staking
              (mkBlock 100 (sample_genesis_time + 6400) bits_1d00ffff
                 work_version)
              (regular_chain 2 99 (sample_genesis_time + 6400 - 70) 70
                 bits_1d00ffff work_version)
              (sample_params true) false eq_refl) as (H1 & H2 & _).
  split; [exact H1 | exact H2].
Defined.

(** C5, as stated, fails: with [fPowNoRetargeting] set, Hybrid PoS answers
    the PoS ceiling for a previous stake block just below the hybrid start
    height, and Midas and Hybrid PoW, which never read the flag, answer a
    retargeted value and the hybrid PoW ceiling. *)
Lemma NoRetargeting_not_everywhere :
  fPowNoRetargeting (sample_params true) = true
  /\ HybridPoSPIVXDifficulty sample_mask sample_staking
       [mkBlock 1319999 on_schedule_time bits_1d00ffff stake_version]
       (sample_params true)
     = Some (GetCompact (posLimit (sample_params true)))
  /\ GetCompact (posLimit (sample_params true)) <> bits_1d00ffff
  /\ GetNextWorkRequiredMidas sample_genesis_time
       (midas_chain 64 bits_1d00ffff) (sample_params true) true
     = Some 486606143
  /\ 486606143 <> bits_1d00ffff
  /\ HybridPoWDarkGravityWave sample_mask sample_staking
       [mkBlock 1320010 on_schedule_time bits_1d00ffff work_version]
       (sample_params true)
     = Some (GetCompact (hybridPowLimit (sample_params true)))
  /\ GetCompact (hybridPowLimit (sample_params true)) <> bits_1d00ffff.
Proof. repeat split; by_compute. Qed.



(** C2: executions of the source that are undefined.  Hybrid PoS leaves the
    function without a [return] for a previous stake block above the hybrid
    start height and at or below the PoS start height, and so does the
    dispatcher on that block; the dispatcher reads the height of an absent
    previous block; Midas divides by [avgOf17 + 5 * nIntervalDesired], which
    is zero on a chain whose oldest window block carries a late timestamp. *)
Theorem undefined_executions :
  HybridPoSPIVXDifficulty sample_mask sample_staking
    [mkBlock 500 on_schedule_time bits_1e0fffff stake_version]
    early_hybrid_params = None
  /\ GetNextWorkRequired MAIN sample_genesis_time sample_mask sample_staking
       [mkBlock 500 on_schedule_time bits_1e0fffff stake_version]
       early_hybrid_params false = None
  /\ (forall params fHybridPow,
        GetNextWorkRequired MAIN sample_genesis_time sample_mask
          sample_staking [] params fHybridPow = None)
  /\ (avgRecentTimestamps midas_backdated_chain (sample_params false)
      = (50, 50, 50, -285)
      /\ GetNextWorkRequiredMidas sample_genesis_time midas_backdated_chain
           (sample_params false) true = None).
Proof.
  split; [by_compute|]. split; [by_compute|]. split; [reflexivity|].
  split; by_compute.
Qed.

(** ** The further properties at concrete inputs *)

(** The walker on [walker_chain] finds the stake block of height 8 with the
    floor 7, hence also with the floor 0. *)
Lemma GetHybridPrevIndex_floor_witness :
  GetHybridPrevIndex sample_mask sample_staking walker_chain true 0
  = GetHybridPrevIndex sample_mask sample_staking walker_chain true 7.
Proof.
  apply (GetHybridPrevIndex_floor sample_mask sample_staking walker_chain
           true 0 7); [lia | by_compute].
Defined.

Lemma CheckProofOfWork_downward_witness :
  5 <= powLimit (sample_params false)
  /\ CheckProofOfWork 3 bits_1e0fffff (sample_params false) = true.
Proof.
  assert (H : CheckProofOfWork 5 bits_1e0fffff (sample_params false) = true)
    by by_compute.
  destruct (CheckProofOfWork_downward 5 3 bits_1e0fffff (sample_params false)
              H) as (H1 & H2).
  split; [exact H1 | apply H2; lia].
Defined.

Lemma CheckProofOfWork_encoded_witness :
  CheckProofOfWork 0 (GetCompact (2 ^ 200)) (sample_params false) = true.
Proof.
  apply (CheckProofOfWork_encoded 0 (2 ^ 200) (sample_params false));
    [split; by_compute | by_compute].
Defined.

Lemma exponential_results_verifiable_witness :
  CheckProofOfWork 0 504382928 (sample_params false) = true.
Proof.
  assert (Hok : limits_ok (sample_params false))
    by (repeat split; by_compute).
  destruct (exponential_results_verifiable MAIN sample_mask sample_staking
              (legacy_chain 70 bits_1e0fffff) (sample_params false) false
              504382928 Hok eq_refl) as (H & _).
  apply H; by_compute.
Defined.

Lemma skip_other_type_stops_witness :
  exists skipped b rest,
    legacy_chain 64 bits_1e0fffff = skipped ++ b :: rest
    /\ skip_other_type MAIN (legacy_chain 64 bits_1e0fffff)
         (sample_params false) true = b :: rest
    /\ (forall q, In q skipped ->
          IsProofOfStakeHeight MAIN (nHeight q) (sample_params false) <> true)
    /\ (IsProofOfStakeHeight MAIN (nHeight b) (sample_params false) = true
        \/ rest = []).
Proof.
  apply (skip_other_type_stops MAIN (legacy_chain 64 bits_1e0fffff)
           (sample_params false) true).
  discriminate.
Defined.

Lemma Orig_first_of_type_witness :
  GetNextWorkRequiredOrig MAIN
    [mkBlock 0 sample_genesis_time bits_1e0fffff work_version]
    (sample_params false) true
  = Some (GetCompact (orig_limit MAIN (sample_params false) true)).
Proof.
  apply (Orig_first_of_type MAIN
           [mkBlock 0 sample_genesis_time bits_1e0fffff work_version]
           (sample_params false) true eq_refl).
  left. simpl. lia.
Defined.

Lemma Orig_backdated_witness :
  GetNextWorkRequiredOrig MAIN (legacy_chain (-10) bits_1e0fffff)
    (sample_params false) false
  = Some bits_1e0fffff.
Proof.
  rewrite (Orig_backdated MAIN (legacy_chain (-10) bits_1e0fffff)
             (sample_params false) false
             (mkBlock 100 (sample_genesis_time + 6400) bits_1e0fffff
                work_version)
             (regular_chain 2 99 (sample_genesis_time + 6400 - -10) (-10)
                bits_1e0fffff work_version)
             (mkBlock 99 (sample_genesis_time + 6400 - -10) bits_1e0fffff
                work_version)
             (regular_chain 1 98 (sample_genesis_time + 6400 - -10 - -10)
                (-10) bits_1e0fffff work_version));
    by_compute.
Defined.

Lemma Midas_at_most_doubles_witness :
  exists v, SetCompact 503382015 = (v, false, false)
            /\ 0 <= v <= 2 * decode bits_1e0fffff.
Proof.
  assert (Hok : limits_ok (sample_params false))
    by (repeat split; by_compute).
  refine (proj2 (Midas_at_most_doubles sample_genesis_time
                   (mkBlock 200000 on_schedule_time bits_1e0fffff
                      stake_version)
                   (regular_chain 17 199999 (on_schedule_time - 64) 64
                      bits_1e0fffff stake_version)
                   (sample_params false) true 503382015 Hok _)).
  by_compute.
Defined.


Lemma avgRecentTimestamps_telescopes_witness :
  avgRecentTimestamps (midas_chain 57 bits_1e0fffff) (sample_params false)
  = (Z.quot (GetBlockTime (block_at 0 (midas_chain 57 bits_1e0fffff))
             - GetBlockTime (block_at 5 (midas_chain 57 bits_1e0fffff))) 5,
     Z.quot (GetBlockTime (block_at 0 (midas_chain 57 bits_1e0fffff))
             - GetBlockTime (block_at 7 (midas_chain 57 bits_1e0fffff))) 7,
     Z.quot (GetBlockTime (block_at 0 (midas_chain 57 bits_1e0fffff))
             - GetBlockTime (block_at 9 (midas_chain 57 bits_1e0fffff))) 9,
     Z.quot (GetBlockTime (block_at 0 (midas_chain 57 bits_1e0fffff))
             - GetBlockTime (block_at 17 (midas_chain 57 bits_1e0fffff))) 17).
Proof.
  apply (avgRecentTimestamps_telescopes (midas_chain 57 bits_1e0fffff)
           (sample_params false)).
  simpl. lia.
Defined.

Lemma Midas_defined_witness :
  exists r,
    GetNextWorkRequiredMidas sample_genesis_time
      (midas_chain 64 bits_1e0fffff) (sample_params false) true = Some r.
Proof.
  apply (Midas_defined sample_genesis_time
           (mkBlock 200000 on_schedule_time bits_1e0fffff stake_version)
           (regular_chain 17 199999 (on_schedule_time - 64) 64 bits_1e0fffff
              stake_version)
           (sample_params false) true);
    [by_ranges | by_ranges | by_compute | by_compute | by_ranges | by_ranges
    |].
  cbn [regular_chain times_ascend GetBlockTime nTime].
  repeat split; by_compute.
Defined.

Lemma HybridPoS_defined_witness :
  exists r,
    HybridPoSPIVXDifficulty sample_mask sample_staking
      [mkBlock 1320010 on_schedule_time bits_1e0fffff stake_version]
      (sample_params false) = Some r.
Proof.
  apply (HybridPoS_defined sample_mask sample_staking
           (mkBlock 1320010 on_schedule_time bits_1e0fffff stake_version) []
           (sample_params false));
    [by_compute | by_compute | by_compute | by_ranges].
Defined.

Lemma HybridPoW_incomplete_window_witness :
  HybridPoWDarkGravityWave sample_mask sample_staking
    [mkBlock 1320030 on_schedule_time bits_1d00ffff work_version]
    (sample_params false)
  = Some (GetCompact (hybridPowLimit (sample_params false))).
Proof.
  apply (HybridPoW_incomplete_window sample_mask sample_staking
           (mkBlock 1320030 on_schedule_time bits_1d00ffff work_version) []
           (sample_params false) 1); [reflexivity | lia | exact I].
Defined.

(** The predicate of the constant-target theorems on the sample window. *)
Lemma dgw_window_constant :
  Forall (fun b => 0 < nHeight b /\ 0 < GetBlockTime b
                   /\ decode (nBits b) = decode bits_1e0fffff) dgw_window.
Proof.
  apply Forall_forall. intros b Hin. vm_compute in Hin.
  repeat (destruct Hin as [<- | Hin]; [repeat split; by_compute|]).
  destruct Hin.
Defined.

Lemma hybrid_work_window : forall j, (j <= 23)%nat ->
  window_block sample_mask sample_staking j
    (hybrid_work_head :: hybrid_work_anc) (sample_params false)
    (decode bits_1e0fffff).
Proof.
  intros j Hj.
  do 24 (destruct j as [|j]; [vm_compute; split; reflexivity|]).
  lia.
Defined.

Lemma Pivx_constant_target_rescale_witness :
  GetNextWorkRequiredPivx MAIN (dgw_window ++ dgw_older) early_hybrid_params
    true
  = pivx_rescale (decode bits_1e0fffff) (23 * 64) 24 early_hybrid_params
      (posLimit early_hybrid_params).
Proof.
  rewrite (Pivx_constant_target_rescale MAIN dgw_window dgw_older
             early_hybrid_params true (decode bits_1e0fffff) eq_refl eq_refl
             dgw_window_constant);
    [reflexivity | by_compute | by_compute | by_compute | left; discriminate].
Defined.

Lemma Pivx_nominal_pace_drift_witness :
  GetNextWorkRequiredPivx MAIN (dgw_window ++ dgw_older) early_hybrid_params
    true
  = Some (GetCompact (cap (posLimit early_hybrid_params)
                        (decode bits_1e0fffff * 23 / 24))).
Proof.
  apply (Pivx_nominal_pace_drift MAIN dgw_window dgw_older
           early_hybrid_params true (decode bits_1e0fffff) eq_refl eq_refl
           dgw_window_constant);
    [by_compute | by_compute | left; discriminate | by_compute | by_compute
    | by_compute | by_compute | by_compute].
Defined.

Lemma Pivx_at_most_triples_witness :
  exists r,
    GetNextWorkRequiredPivx MAIN (dgw_window ++ dgw_older)
      early_hybrid_params true = Some r
    /\ decodes_within 0 r (3 * decode bits_1e0fffff).
Proof.
  assert (Hok : limits_ok early_hybrid_params)
    by (repeat split; by_compute).
  apply (Pivx_at_most_triples MAIN dgw_window dgw_older early_hybrid_params
           true (decode bits_1e0fffff) Hok eq_refl eq_refl
           dgw_window_constant);
    [by_compute | by_compute | by_compute | left; discriminate | by_compute
    | by_compute].
Defined.

Lemma HybridPoW_constant_target_rescale_witness :
  HybridPoWDarkGravityWave sample_mask sample_staking
    (hybrid_work_head :: hybrid_work_anc) (sample_params false)
  = hybrid_rescale (decode bits_1e0fffff) (23 * 100) (sample_params false).
Proof.
  rewrite (HybridPoW_constant_target_rescale sample_mask sample_staking
             hybrid_work_head hybrid_work_anc (sample_params false)
             (decode bits_1e0fffff));
    [reflexivity | by_compute | reflexivity | by_compute | by_compute
    | exact hybrid_work_window].
Defined.

Lemma HybridPoW_at_most_quadruples_witness :
  exists r,
    HybridPoWDarkGravityWave sample_mask sample_staking
      (hybrid_work_head :: hybrid_work_anc) (sample_params false) = Some r
    /\ decodes_within 0 r (4 * decode bits_1e0fffff).
Proof.
  apply (HybridPoW_at_most_quadruples sample_mask sample_staking
           hybrid_work_head hybrid_work_anc (sample_params false)
           (decode bits_1e0fffff));
    [split; by_compute | by_compute | reflexivity | by_compute | by_compute
    | exact hybrid_work_window | by_compute | by_compute].
Defined.

Lemma HybridPoW_defined_witness :
  exists r,
    HybridPoWDarkGravityWave sample_mask sample_staking
      (hybrid_work_head :: hybrid_work_anc) (sample_params false) = Some r.
Proof.
  apply (HybridPoW_defined sample_mask sample_staking hybrid_work_head
           hybrid_work_anc (sample_params false));
    [by_compute | by_compute | by_ranges | by_ranges | by_ranges].
Defined.

Lemma Pivx_defined_witness :
  exists r,
    GetNextWorkRequiredPivx MAIN (dgw_window ++ dgw_older)
      early_hybrid_params true = Some r.
Proof.
  apply (Pivx_defined MAIN
           (mkBlock 200 on_schedule_time bits_1e0fffff stake_version)
           (regular_chain 23 199 (on_schedule_time - 64) 64 bits_1e0fffff
              stake_version ++ dgw_older)
           early_hybrid_params true);
    [by_compute | by_compute | by_ranges | by_compute | by_ranges
    | by_compute | discriminate].
Defined.

Lemma GetNextWorkRequired_defined_witness :
  exists r,
    GetNextWorkRequired MAIN sample_genesis_time sample_mask sample_staking
      (midas_chain 64 bits_1e0fffff) (sample_params false) false = Some r.
Proof.
  apply (GetNextWorkRequired_defined MAIN sample_genesis_time sample_mask
           sample_staking
           (mkBlock 200000 on_schedule_time bits_1e0fffff stake_version)
           (regular_chain 17 199999 (on_schedule_time - 64) 64 bits_1e0fffff
              stake_version)
           (sample_params false) false).
  - by_ranges.
  - by_ranges.
  - by_ranges.
  - by_ranges.
  - discriminate.
  - cbn [regular_chain times_ascend GetBlockTime nTime].
    repeat split; by_compute.
Defined.
